(** * Gmail email analysis script: a shallow embedding of
      [perplexity_email_reader.py] and the properties of its pipeline.

    The script is one class, [GmailAnalyzer], whose methods are run once, top
    to bottom: open the mailbox, list and fetch messages, extract a record
    from each, ask a text-analysis service to classify each record, group and
    rank the results, render a report and send it.

    Conventions of the embedding.
    - A Python [str] is a [string]; a character stands for the code point of
      the same number, so the texts covered are those over code points 0..255.
    - A Python [int] is a [Z].
    - A method that can raise returns an [outcome]; a [try] whose handler
      swallows the exception returns the handler's value.
    - Calls that leave the process (IMAP server, analysis service) and library
      functions whose code is not part of the script ([html2text], [json],
      the clock) are inputs of the model: fields of [Libraries], of the
      analyzer object, or of the server description.
    - [print] calls are not modelled, except that an expression they show is
      evaluated where the rest of the method is, so that it raises when the
      script does. The lines printed by [send_email_report] are modelled. *)

From Stdlib Require Import String Ascii List ZArith Lia Bool Arith.
From Stdlib Require Import DecimalString Permutation Sorted.
Import ListNotations.
Set Warnings "-register-all".
Open Scope list_scope.
Open Scope string_scope.
Open Scope nat_scope.

(* ================================================================== *)
(** * Python runtime: exceptions, values, [str] methods *)
(* ================================================================== *)

Module Py.

(** Exceptions that the script's own expressions raise and do not catch.
    [SliceOfDict] is what [d[:n]] raises on a dictionary [d]: a [TypeError]
    (a slice cannot be hashed) up to Python 3.11, a [KeyError] (a slice can
    be hashed and is not a key) from Python 3.12 on. *)
Inductive exn : Type :=
| KeyError (key : string)
| TypeError
| SliceOfDict.

Inductive outcome (A : Type) : Type :=
| Ok (a : A)
| Raise (e : exn).
Arguments Ok {A} a.
Arguments Raise {A} e.

Definition bind {A B} (m : outcome A) (k : A -> outcome B) : outcome B :=
  match m with
  | Ok a => k a
  | Raise e => Raise e
  end.

Definition returns {A} (m : outcome A) : bool :=
  match m with Ok _ => true | Raise _ => false end.

(** The values [json.loads] builds, real-number literals excepted: the model
    has no floating point, so replies that carry one are outside it. A
    [dict] keeps its insertion order. *)
Inductive pyval : Type :=
| PNone
| PBool (b : bool)
| PInt (z : Z)
| PStr (s : string)
| PList (items : list pyval)
| PDict (entries : list (string * pyval)).

(** ** Characters *)

Definition code (c : ascii) : nat := nat_of_ascii c.

Definition between (lo hi n : nat) : bool := (lo <=? n) && (n <=? hi).

(** [str.isspace] on one character, for code points below 256. *)
Definition isspace (c : ascii) : bool :=
  let n := code c in
  between 9 13 n || between 28 32 n || (n =? 133) || (n =? 160).

(** [str.lower] on one character, for code points below 256: the ASCII
    capitals and the Latin-1 capitals (the multiplication sign is not one). *)
Definition lower_char (c : ascii) : ascii :=
  let n := code c in
  if between 65 90 n || (between 192 222 n && negb (n =? 215))
  then ascii_of_nat (n + 32)
  else c.

(** ** [str] methods *)

Fixpoint lower (s : string) : string :=
  match s with
  | EmptyString => EmptyString
  | String c t => String (lower_char c) (lower t)
  end.

Fixpoint lstrip (s : string) : string :=
  match s with
  | EmptyString => EmptyString
  | String c t => if isspace c then lstrip t else s
  end.

Fixpoint rstrip (s : string) : string :=
  match s with
  | EmptyString => EmptyString
  | String c t =>
      match rstrip t with
      | EmptyString => if isspace c then EmptyString else String c EmptyString
      | t' => String c t'
      end
  end.

(** [s.strip()] *)
Definition strip (s : string) : string := rstrip (lstrip s).

(** [needle in hay] *)
Fixpoint contains (needle hay : string) : bool :=
  if String.prefix needle hay then true
  else match hay with
       | EmptyString => false
       | String _ t => contains needle t
       end.

(** [s[:n]] for a literal [n >= 0] *)
Definition take (n : nat) (s : string) : string := String.substring 0 n s.

(** [bool(s)] *)
Definition truthy_str (s : string) : bool :=
  match s with EmptyString => false | _ => true end.

(** [str(z)] *)
Definition str_of_int (z : Z) : string := NilZero.string_of_int (Z.to_int z).

(** [str(len(l))] and the like *)
Definition str_of_nat (n : nat) : string := str_of_int (Z.of_nat n).

(** [sep.join(parts)] on a list of [str] *)
Definition join (sep : string) (parts : list string) : string :=
  String.concat sep parts.

(** ** [repr] and [str] of values *)

Definition nl : string := String (ascii_of_nat 10) EmptyString.
Definition dq : string := String (ascii_of_nat 34) EmptyString.
Definition sq : string := String (ascii_of_nat 39) EmptyString.

Definition hex_digit (n : nat) : ascii :=
  if n <? 10 then ascii_of_nat (48 + n) else ascii_of_nat (87 + n).

(** [\xhh] *)
Definition hex_escape (n : nat) : string :=
  String (ascii_of_nat 92)
    (String (ascii_of_nat 120)
       (String (hex_digit (n / 16)) (String (hex_digit (n mod 16)) EmptyString))).

Fixpoint has_char (n : nat) (s : string) : bool :=
  match s with
  | EmptyString => false
  | String c t => (code c =? n) || has_char n t
  end.

(** The quote [repr] puts around [s]: a double quote when [s] has a single
    quote and no double quote, a single quote otherwise. *)
Definition repr_quote (s : string) : nat :=
  if has_char 39 s && negb (has_char 34 s) then 34 else 39.

(** [str.isprintable] on one character above ASCII, below 256. *)
Definition printable_latin1 (n : nat) : bool :=
  negb (between 128 160 n || (n =? 173)).

Definition repr_char (quote : nat) (c : ascii) : string :=
  let n := code c in
  if (n =? quote) || (n =? 92) then String (ascii_of_nat 92) (String c EmptyString)
  else if n =? 9 then String (ascii_of_nat 92) "t"
  else if n =? 10 then String (ascii_of_nat 92) "n"
  else if n =? 13 then String (ascii_of_nat 92) "r"
  else if (n <? 32) || (n =? 127) then hex_escape n
  else if n <? 127 then String c EmptyString
  else if printable_latin1 n then String c EmptyString
  else hex_escape n.

Fixpoint repr_chars (quote : nat) (s : string) : string :=
  match s with
  | EmptyString => EmptyString
  | String c t => repr_char quote c ++ repr_chars quote t
  end.

Definition repr_str (s : string) : string :=
  let q := repr_quote s in
  String (ascii_of_nat q) (repr_chars q s ++ String (ascii_of_nat q) EmptyString).

Fixpoint py_repr (v : pyval) : string :=
  match v with
  | PNone => "None"
  | PBool true => "True"
  | PBool false => "False"
  | PInt z => str_of_int z
  | PStr s => repr_str s
  | PList items => "[" ++ join ", " (map py_repr items) ++ "]"
  | PDict entries =>
      "{" ++ join ", " (map (fun kv => repr_str (fst kv) ++ ": " ++ py_repr (snd kv))
                            entries) ++ "}"
  end.

(** [str(v)], which is also what an f-string field [{v}] inserts. *)
Definition py_str (v : pyval) : string :=
  match v with
  | PStr s => s
  | _ => py_repr v
  end.

(** ** Operations that depend on the dynamic type *)

Fixpoint dict_get (d : list (string * pyval)) (key : string) : option pyval :=
  match d with
  | [] => None
  | (k, v) :: rest => if String.eqb k key then Some v else dict_get rest key
  end.

(** [v[key]] for a [str] key. *)
Definition subscript (v : pyval) (key : string) : outcome pyval :=
  match v with
  | PDict d =>
      match dict_get d key with
      | Some x => Ok x
      | None => Raise (KeyError key)
      end
  | _ => Raise TypeError
  end.

Fixpoint chars (s : string) : list pyval :=
  match s with
  | EmptyString => []
  | String c t => PStr (String c EmptyString) :: chars t
  end.

(** The items a [for] loop over [v] visits. *)
Definition py_iter (v : pyval) : outcome (list pyval) :=
  match v with
  | PList items => Ok items
  | PStr s => Ok (chars s)
  | PDict entries => Ok (map (fun kv => PStr (fst kv)) entries)
  | _ => Raise TypeError
  end.

(** [len(v)] *)
Definition py_len (v : pyval) : outcome nat :=
  match v with
  | PStr s => Ok (String.length s)
  | PList items => Ok (List.length items)
  | PDict entries => Ok (List.length entries)
  | _ => Raise TypeError
  end.

(** [v[:n]] for a literal [n >= 0]. [None], a [bool] and an [int] cannot
    be subscripted; a [dict] can, and the slice is then looked up as a key. *)
Definition py_prefix (n : nat) (v : pyval) : outcome pyval :=
  match v with
  | PStr s => Ok (PStr (take n s))
  | PList items => Ok (PList (firstn n items))
  | PDict _ => Raise SliceOfDict
  | _ => Raise TypeError
  end.

Fixpoint all_str (items : list pyval) : outcome (list string) :=
  match items with
  | [] => Ok []
  | PStr s :: rest =>
      match all_str rest with
      | Ok l => Ok (s :: l)
      | Raise e => Raise e
      end
  | _ :: _ => Raise TypeError
  end.

(** [sep.join(v)] *)
Definition py_join (sep : string) (v : pyval) : outcome string :=
  match py_iter v with
  | Ok items =>
      match all_str items with
      | Ok l => Ok (join sep l)
      | Raise e => Raise e
      end
  | Raise e => Raise e
  end.

(** [hash(v)] is defined. *)
Definition hashable (v : pyval) : bool :=
  match v with
  | PList _ | PDict _ => false
  | _ => true
  end.

(** The integer a [bool] or [int] is, as a dictionary key or a sort key. *)
Definition as_int (v : pyval) : option Z :=
  match v with
  | PInt z => Some z
  | PBool true => Some 1%Z
  | PBool false => Some 0%Z
  | _ => None
  end.

(** Are two hashable values the same dictionary key? *)
Definition key_eqb (a b : pyval) : bool :=
  match a, b with
  | PNone, PNone => true
  | PStr s, PStr t => String.eqb s t
  | _, _ =>
      match as_int a, as_int b with
      | Some x, Some y => Z.eqb x y
      | _, _ => false
      end
  end.

End Py.

Import Py.

Declare Scope py_scope.
Delimit Scope py_scope with py.
Notation "x <- m ;; k" := (Py.bind m (fun x => k))
  (at level 61, m at next level, right associativity) : py_scope.

(* ================================================================== *)
(** * Reference JSON reader *)
(* ================================================================== *)

(** [json.loads] is a parameter of the analysis step (see [Libraries]
    below). This module is a reference reader used to run the model on
    concrete replies. It follows the grammar of the [json] module for
    objects, arrays, strings, integers, [true], [false] and [null]. Texts with
    a real-number literal ([NaN] and [Infinity] included) or with a [\u]
    escape above U+00FF have no value in this model, and how Python treats
    very deep nesting depends on the interpreter: the reader answers
    [Unsupported] for these. An integer literal of more than 4300 digits makes
    [json.loads] raise [ValueError] (Python 3.11 and later): the reader
    answers [Refused] with the text of that exception. *)
Module Json.

Inductive result (A : Type) : Type :=
| Parsed (a : A) (rest : string)
| Malformed
| Unsupported
| Refused (text : string).
Arguments Parsed {A} a rest.
Arguments Malformed {A}.
Arguments Unsupported {A}.
Arguments Refused {A} text.

Definition dquote : ascii := ascii_of_nat 34.
Definition backslash : ascii := ascii_of_nat 92.

Definition has_code (c : ascii) (n : nat) : bool := Nat.eqb (code c) n.

Definition is_ws (c : ascii) : bool :=
  has_code c 32 || has_code c 9 || has_code c 10 || has_code c 13.

Fixpoint skip_ws (s : string) : string :=
  match s with
  | String c r => if is_ws c then skip_ws r else s
  | EmptyString => s
  end.

Definition is_digit (c : ascii) : bool := between 48 57 (code c).

Definition hex_value (c : ascii) : option nat :=
  let n := code c in
  if between 48 57 n then Some (n - 48)
  else if between 97 102 n then Some (n - 87)
  else if between 65 70 n then Some (n - 55)
  else None.

Definition hex4 (a b c d : ascii) : option nat :=
  match hex_value a, hex_value b, hex_value c, hex_value d with
  | Some x, Some y, Some z, Some w => Some (((x * 16 + y) * 16 + z) * 16 + w)
  | _, _, _, _ => None
  end.

(** The character a one-letter escape stands for. *)
Definition simple_escape (e : ascii) : option ascii :=
  if Ascii.eqb e dquote then Some dquote
  else if Ascii.eqb e backslash then Some backslash
  else if has_code e 47 then Some e
  else if has_code e 98 then Some (ascii_of_nat 8)
  else if has_code e 102 then Some (ascii_of_nat 12)
  else if has_code e 110 then Some (ascii_of_nat 10)
  else if has_code e 114 then Some (ascii_of_nat 13)
  else if has_code e 116 then Some (ascii_of_nat 9)
  else None.

(** The body of a string literal, after its opening quote. *)
Fixpoint scan_string (s : string) : result string :=
  match s with
  | EmptyString => Malformed
  | String c r =>
      if Ascii.eqb c dquote then Parsed EmptyString r
      else if Ascii.eqb c backslash then
        match r with
        | EmptyString => Malformed
        | String e r1 =>
            if has_code e 117 then
              match r1 with
              | String h1 (String h2 (String h3 (String h4 r2))) =>
                  match hex4 h1 h2 h3 h4 with
                  | Some n =>
                      if n <? 256 then
                        match scan_string r2 with
                        | Parsed t rest => Parsed (String (ascii_of_nat n) t) rest
                        | other => other
                        end
                      else Unsupported
                  | None => Malformed
                  end
              | _ => Malformed
              end
            else
              match simple_escape e with
              | Some ch =>
                  match scan_string r1 with
                  | Parsed t rest => Parsed (String ch t) rest
                  | other => other
                  end
              | None => Malformed
              end
        end
      else if code c <? 32 then Malformed
      else
        match scan_string r with
        | Parsed t rest => Parsed (String c t) rest
        | other => other
        end
  end.

(** The digits at the head of [s], as a number continuing [acc]. *)
Fixpoint scan_digits (acc : Z) (s : string) : Z * string :=
  match s with
  | String c r =>
      if is_digit c
      then scan_digits (acc * 10 + Z.of_nat (code c - 48)) r
      else (acc, s)
  | EmptyString => (acc, s)
  end.

Definition starts_with_digit (s : string) : bool :=
  match s with
  | String c _ => is_digit c
  | EmptyString => false
  end.

(** Does a fraction or an exponent follow the integer part? *)
Definition real_tail (s : string) : bool :=
  match s with
  | String c r =>
      if has_code c 46 then starts_with_digit r
      else if has_code c 101 || has_code c 69 then
        match r with
        | String sg r1 =>
            if has_code sg 43 || has_code sg 45 then starts_with_digit r1
            else is_digit sg
        | EmptyString => false
        end
      else false
  | EmptyString => false
  end.

(** [sys.get_int_max_str_digits()]: [int] refuses to read more digits. *)
Definition max_digits : nat := 4300.

(** [str()] of the [ValueError] for a literal of [digits] digits. *)
Definition digit_limit_error (digits : nat) : string :=
  "Exceeds the limit (4300 digits) for integer string conversion: value has "
  ++ Py.str_of_nat digits
  ++ " digits; use sys.set_int_max_str_digits() to increase the limit".

(** An integer literal: [0], or digits that do not start with [0]; [s] is
    the text after the optional minus sign. *)
Definition scan_int (negative : bool) (s : string) : result Py.pyval :=
  match s with
  | String c r =>
      if has_code c 48 then
        if real_tail r then Unsupported else Parsed (PInt 0) r
      else if is_digit c then
        let '(n, rest) := scan_digits 0 s in
        if real_tail rest then Unsupported
        else if max_digits <? String.length s - String.length rest
        then Refused (digit_limit_error (String.length s - String.length rest))
        else Parsed (PInt (if negative then - n else n)) rest
      else Malformed
  | EmptyString => Malformed
  end.

(** [d[key] = v] while the dictionary is built. *)
Fixpoint dict_set (d : list (string * Py.pyval)) (key : string) (v : Py.pyval)
  : list (string * Py.pyval) :=
  match d with
  | [] => [(key, v)]
  | (k, w) :: rest =>
      if String.eqb k key then (k, v) :: rest
      else (k, w) :: dict_set rest key v
  end.

Definition literal (word : string) (v : Py.pyval) (s : string)
  : result Py.pyval :=
  if String.prefix word s
  then Parsed v (String.substring (String.length word)
                                  (String.length s - String.length word) s)
  else Malformed.

(** One value at the head of [s]; [elements] and [members] read what
    follows an opening bracket or a comma. [depth] is the number of brackets
    that may still be opened. Every call uses one unit of [fuel]; twice the
    length of the text is enough. *)
Fixpoint value (depth fuel : nat) (s : string) : result Py.pyval :=
  match fuel with
  | O => Unsupported
  | S fuel' =>
      match s with
      | EmptyString => Malformed
      | String c r =>
          if Ascii.eqb c dquote then
            match scan_string r with
            | Parsed t rest => Parsed (PStr t) rest
            | Malformed => Malformed
            | Unsupported => Unsupported
            | Refused e => Refused e
            end
          else if has_code c 123 then
            match depth, skip_ws r with
            | O, _ => Unsupported
            | S depth', String c1 r1 =>
                if has_code c1 125 then Parsed (PDict []) r1
                else members depth' fuel' (skip_ws r) []
            | S _, EmptyString => Malformed
            end
          else if has_code c 91 then
            match depth, skip_ws r with
            | O, _ => Unsupported
            | S depth', String c1 r1 =>
                if has_code c1 93 then Parsed (PList []) r1
                else elements depth' fuel' (skip_ws r) []
            | S _, EmptyString => Malformed
            end
          else if has_code c 110 then literal "null" PNone s
          else if has_code c 116 then literal "true" (PBool true) s
          else if has_code c 102 then literal "false" (PBool false) s
          else if String.prefix "NaN" s || String.prefix "Infinity" s
                  || String.prefix "-Infinity" s then Unsupported
          else if has_code c 45 then scan_int true r
          else scan_int false s
      end
  end
with elements (depth fuel : nat) (s : string) (acc : list Py.pyval)
  : result Py.pyval :=
  match fuel with
  | O => Unsupported
  | S fuel' =>
      match value depth fuel' s with
      | Parsed v rest =>
          match skip_ws rest with
          | String c r =>
              if has_code c 93 then Parsed (PList (rev (v :: acc))) r
              else if has_code c 44
              then elements depth fuel' (skip_ws r) (v :: acc)
              else Malformed
          | EmptyString => Malformed
          end
      | other => other
      end
  end
with members (depth fuel : nat) (s : string) (acc : list (string * Py.pyval))
  : result Py.pyval :=
  match fuel with
  | O => Unsupported
  | S fuel' =>
      match s with
      | String q r =>
          if Ascii.eqb q dquote then
            match scan_string r with
            | Parsed key rest =>
                match skip_ws rest with
                | String colon r1 =>
                    if has_code colon 58 then
                      match value depth fuel' (skip_ws r1) with
                      | Parsed v rest1 =>
                          match skip_ws rest1 with
                          | String c r2 =>
                              if has_code c 125
                              then Parsed (PDict (dict_set acc key v)) r2
                              else if has_code c 44
                              then members depth fuel' (skip_ws r2)
                                           (dict_set acc key v)
                              else Malformed
                          | EmptyString => Malformed
                          end
                      | other => other
                      end
                    else Malformed
                | EmptyString => Malformed
                end
            | Malformed => Malformed
            | Unsupported => Unsupported
            | Refused e => Refused e
            end
          else Malformed
      | EmptyString => Malformed
      end
  end.

(** Brackets nested deeper than this are not read. *)
Definition max_depth : nat := 64.

(** The whole text is one value between optional blanks. *)
Definition loads (s : string) : result Py.pyval :=
  match value max_depth (S (2 * String.length s)) (skip_ws s) with
  | Parsed v rest =>
      match skip_ws rest with
      | EmptyString => Parsed v EmptyString
      | String _ _ => Malformed
      end
  | other => other
  end.

End Json.

(* ================================================================== *)
(** * Data shapes *)
(* ================================================================== *)

(** The value of a header as [msg.get] returns it. The messages come from
    [email.message_from_bytes] with its default policy, under which a header
    is returned as a [str], except that a header holding raw bytes above
    ASCII is returned as an [email.header.Header] object. Such an object has
    no [lower] method, cannot be subscripted and has no [len]; it has a
    [str()], which is [text]. *)
Inductive header_value : Type :=
| HStr (s : string)
| HHeader (text : string).

(** [str(h)], which is also what an f-string field [{h}] inserts. *)
Definition header_str (h : header_value) : string :=
  match h with
  | HStr s => s
  | HHeader text => text
  end.

(** [h[:n]] for a literal [n >= 0]. *)
Definition header_prefix (n : nat) (h : header_value) : outcome string :=
  match h with
  | HStr s => Ok (take n s)
  | HHeader _ => Raise TypeError
  end.

(** [len(h)] *)
Definition header_len (h : header_value) : outcome nat :=
  match h with
  | HStr s => Ok (String.length s)
  | HHeader _ => Raise TypeError
  end.

(** A message as the [email] package presents it to the script: its header
    list, the value of [get_content_type()], and either a single payload or a
    list of sub-parts ([is_multipart()] is true exactly for the latter).
    [text] is the value of [get_payload(decode=True).decode('utf-8',
    errors='ignore')], [None] when evaluating that expression raises. *)
Inductive Message : Type :=
| Single (headers : list (string * header_value)) (content_type : string)
         (text : option string)
| Multipart (headers : list (string * header_value)) (content_type : string)
            (parts : list Message).

Definition msg_headers (m : Message) : list (string * header_value) :=
  match m with
  | Single h _ _ => h
  | Multipart h _ _ => h
  end.

Definition get_content_type (m : Message) : string :=
  match m with
  | Single _ ct _ => ct
  | Multipart _ ct _ => ct
  end.

Definition is_multipart (m : Message) : bool :=
  match m with
  | Single _ _ _ => false
  | Multipart _ _ _ => true
  end.

(** The decoded payload of one part; a multipart part has none. *)
Definition decoded_payload (m : Message) : option string :=
  match m with
  | Single _ _ t => t
  | Multipart _ _ _ => None
  end.

(** [msg.walk()]: the message, then its sub-parts, depth first. *)
Fixpoint walk (m : Message) : list Message :=
  match m with
  | Single _ _ _ => [m]
  | Multipart _ _ ps => m :: flat_map walk ps
  end.

(** [msg.get(name, failobj)]: first header whose name matches, case folded;
    [failobj] is a [str] in every call of the script. *)
Fixpoint header_get (hs : list (string * header_value)) (name failobj : string)
  : header_value :=
  match hs with
  | [] => HStr failobj
  | (k, v) :: rest =>
      if String.eqb (lower k) (lower name) then v
      else header_get rest name failobj
  end.

Definition msg_get (m : Message) (name failobj : string) : header_value :=
  header_get (msg_headers m) name failobj.

(** The dictionary [extract_email_data] returns (NormalizedMessage). The
    subject, the recipient and the date are stored as [msg.get] gave them.
    The sender of a returned dictionary is a [str]: the owner test calls
    [lower] on it, and no dictionary is returned when that raises. *)
Record EmailData : Type := mkEmailData {
  subject : header_value;
  from : string;
  to : header_value;
  date : header_value;
  body : string;
  is_from_me : bool
}.

(** A processed message (AnalyzedMessage): the extracted record and the
    three values copied from the analysis result, whatever they are. *)
Record ProcessedEmail : Type := mkProcessedEmail {
  message : EmailData;
  categories : pyval;
  summary : pyval;
  importance : pyval
}.

(** What [json.loads] does on one text. *)
Inductive loads_result : Type :=
| Loaded (result : pyval)
| JSONDecodeError
| LoadsRaised (text : string).   (* another exception, with its [str()] *)

(** Library functions the script calls and does not define. [None] stands
    for "the call raises". *)
Record Libraries : Type := mkLibraries {
  (** [html2text.HTML2Text()] configured as in the script, then [handle] *)
  html2text_handle : string -> option string;
  (** [BeautifulSoup(html, 'html.parser').get_text()] *)
  soup_get_text : string -> option string;
  (** [json.loads] *)
  json_loads : string -> loads_result;
  (** [str()] of the [TypeError] that [re.search] raises on [None] *)
  re_search_none_error : string
}.

(** One request to the analysis service. The sampling temperature, 0.3 in
    both requests of the script, is not represented. *)
Record ChatRequest : Type := mkChatRequest {
  model : string;
  system_content : string;
  user_content : string;
  max_tokens : Z
}.

(** What [chat.completions.create] followed by reading
    [response.choices[0].message.content] does: it yields the content, which
    can be [None], or one of the two raises. *)
Inductive completion : Type :=
| Reply (content : option string)
| ApiRaised (text : string).     (* [str()] of the exception *)

(** The analyzer object. [perplexity_client n] answers the request made
    after [n] earlier ones, so two equal requests can get different answers. *)
Record GmailAnalyzer : Type := mkGmailAnalyzer {
  (** [os.getenv] gives [None] when the variable is not set *)
  gmail_account_username : option string;
  perplexity_client : nat -> ChatRequest -> completion
}.

Definition HOURS_TO_FETCH : Z := 24%Z.

(** [self.categories] *)
Definition analyzer_categories : list string :=
  [ "BUSINESS"; "CHARITY"; "EDUCATION"; "ENTERTAINMENT"; "ENVIRONMENT";
    "FINANCE"; "FOOD"; "GOVERNMENT"; "HEALTH"; "LGBTQ+"; "LEGAL";
    "NEWS"; "PERSONAL"; "PROMOTIONAL"; "RELIGION"; "SCIENCE";
    "SHOPPING"; "SOCIAL"; "SPORT"; "TECHNOLOGY"; "TRAVEL"; "WORK" ].

(* ================================================================== *)
(** * Message Fetcher and Extractor *)
(* ================================================================== *)

Section Extraction.

Variable lib : Libraries.
Variable self : GmailAnalyzer.

Definition extract_text_from_html (html_content : string) : string :=
  match html2text_handle lib html_content with
  | Some t => t
  | None =>
      match soup_get_text lib html_content with
      | Some t => t
      | None => html_content
      end
  end.

(** One iteration of the loop over [msg.walk()]. *)
Definition part_text (part : Message) : string :=
  if String.eqb (get_content_type part) "text/plain" then
    match decoded_payload part with
    | Some t => t
    | None => ""
    end
  else if String.eqb (get_content_type part) "text/html" then
    match decoded_payload part with
    | Some html_content => extract_text_from_html html_content
    | None => ""
    end
  else "".

Fixpoint accumulate (body_text : string) (ps : list Message) : string :=
  match ps with
  | [] => body_text
  | part :: rest => accumulate (body_text ++ part_text part) rest
  end.

(** The "Extract body content" block: the value of [body_text] when the
    block is left. *)
Definition body_text (msg : Message) : string :=
  if is_multipart msg then accumulate "" (walk msg)
  else
    match decoded_payload msg with
    | Some content =>
        if String.eqb (get_content_type msg) "text/html"
        then extract_text_from_html content
        else content
    | None => ""
    end.

(** The owner test of the script: [username.lower() in from.lower()]. *)
Definition owner_in_from (username from_header : string) : bool :=
  contains (lower username) (lower from_header).

(** [extract_email_data]. A [Message] object is false when it has no header
    ([len(msg)] counts headers). In the owner test, [.lower()] raises
    [AttributeError] when no username is configured and when the [From]
    header is a [Header] object; this happens inside the [try], and the
    handler returns [None]. *)
Definition extract_email_data (msg : option Message) : option EmailData :=
  match msg with
  | None => None
  | Some m =>
      match msg_headers m with
      | [] => None
      | _ :: _ =>
          match gmail_account_username self, msg_get m "From" "" with
          | Some username, HStr from_header =>
              let email_data :=
                {| subject := msg_get m "Subject" "";
                   from := from_header;
                   to := msg_get m "To" "";
                   date := msg_get m "Date" "";
                   body := "";
                   is_from_me := false |} in
              if owner_in_from username (from email_data) then
                Some {| subject := subject email_data;
                        from := from email_data;
                        to := to email_data;
                        date := date email_data;
                        body := body email_data;
                        is_from_me := true |}
              else
                Some {| subject := subject email_data;
                        from := from email_data;
                        to := to email_data;
                        date := date email_data;
                        body := strip (body_text m);
                        is_from_me := false |}
          | _, _ => None
          end
      end
  end.

(** What [mail.fetch(email_id, '(RFC822)')] followed by
    [email.message_from_bytes(data[0][1])] does for one identifier:
    the call raises, or it returns a status, and then [parsed] is the parsed
    message ([None] when building it raises). *)
Inductive fetch_response : Type :=
| FetchRaises
| FetchReturns (status : string) (parsed : option Message).

Definition fetch_email_by_id (mail : string -> fetch_response)
           (email_id : string) : option Message :=
  match mail email_id with
  | FetchRaises => None
  | FetchReturns status parsed =>
      if String.eqb status "OK" then parsed else None
  end.

(** The test of the fetch loop:
    [msg_data and not msg_data['is_from_me'] and msg_data['body']]. *)
Definition relevant (msg_data : option EmailData) : bool :=
  match msg_data with
  | None => false
  | Some d => negb (is_from_me d) && truthy_str (body d)
  end.

Fixpoint fetch_messages (mail : string -> fetch_response)
         (message_id_list : list string) : list EmailData :=
  match message_id_list with
  | [] => []
  | current_email_id :: rest =>
      let msg := fetch_email_by_id mail current_email_id in
      let msg_data := extract_email_data msg in
      match msg_data with
      | Some d =>
          if relevant msg_data then d :: fetch_messages mail rest
          else fetch_messages mail rest
      | None => fetch_messages mail rest
      end
  end.

End Extraction.


(* ================================================================== *)
(** * Classifier and Summarizer *)
(* ================================================================== *)

(** [re.search(r'\{.*\}', text, re.DOTALL)]: the leftmost match starts at the
    first opening brace that has a closing brace after it, which is the first
    opening brace of the text if any has, and the greedy [.*] runs to the
    last closing brace. *)
Fixpoint from_first (n : nat) (s : string) : option string :=
  match s with
  | EmptyString => None
  | String c r => if code c =? n then Some s else from_first n r
  end.

Fixpoint upto_last (n : nat) (s : string) : option string :=
  match s with
  | EmptyString => None
  | String c r =>
      match upto_last n r with
      | Some p => Some (String c p)
      | None => if code c =? n then Some (String c EmptyString) else None
      end
  end.

(** [json_match.group()], [None] when there is no match. *)
Definition brace_span (response_text : string) : option string :=
  match from_first 123 response_text with
  | Some t => upto_last 125 t
  | None => None
  end.

Definition indent12 : string := "            ".
Definition indent16 : string := "                ".
Definition quoted (s : string) : string := dq ++ s ++ dq.

(** The two f-strings of [categorize_and_summarize_email]. *)
Definition email_content (email_data : EmailData) : string :=
  nl ++ indent12 ++ "Subject: " ++ header_str (subject email_data) ++
  nl ++ indent12 ++ "From: " ++ from email_data ++
  nl ++ indent12 ++ "Body: " ++ take 2000 (body email_data) ++ "..." ++
  nl ++ indent12.

Definition analysis_prompt (email_data : EmailData) : string :=
  nl ++ indent12 ++ "Please analyze this email and:" ++
  nl ++ indent12 ++
    "1. Categorize it into a maximum of 3 categories from this list: " ++
    join ", " analyzer_categories ++
  nl ++ indent12 ++ "2. Provide a concise summary paragraph (2-3 sentences)" ++
  nl ++ indent12 ++
    "3. Rate the importance on a scale of 1-10 (10 being most important)" ++
  nl ++
  nl ++ indent12 ++ "Email content:" ++
  nl ++ indent12 ++ email_content email_data ++
  nl ++
  nl ++ indent12 ++ "Please respond in JSON format:" ++
  nl ++ indent12 ++ "{" ++
  nl ++ indent16 ++ quoted "categories" ++ ": [" ++ quoted "CATEGORY1" ++ ", " ++
    quoted "CATEGORY2" ++ "]," ++
  nl ++ indent16 ++ quoted "summary" ++ ": " ++
    quoted "Brief summary of the email content and purpose" ++ "," ++
  nl ++ indent16 ++ quoted "importance" ++ ": 8" ++
  nl ++ indent12 ++ "}" ++
  nl ++ indent12.

Definition analysis_request (email_data : EmailData) : ChatRequest :=
  {| model := "sonar-pro";
     system_content :=
       "You are an expert email analyzer. Provide accurate categorization and summaries.";
     user_content := analysis_prompt email_data;
     max_tokens := 500%Z |}.

(** The dictionary of the two inner fallbacks. *)
Definition fallback_analysis : pyval :=
  PDict [ ("categories", PList [PStr "PERSONAL"]);
          ("summary", PStr "Email content could not be properly analyzed");
          ("importance", PInt 5) ].

(** The dictionary of the outer handler, [e] being [str(e)]. *)
Definition error_analysis (e : string) : pyval :=
  PDict [ ("categories", PList [PStr "PERSONAL"]);
          ("summary", PStr ("Error analyzing email: " ++ take 100 e));
          ("importance", PInt 5) ].

Section Analysis.

Variable lib : Libraries.
Variable self : GmailAnalyzer.

(** The inner [try]: what is done with the reply text. *)
Definition parse_reply (response_text : string) : pyval :=
  match brace_span response_text with
  | Some span =>
      match json_loads lib span with
      | Loaded result => result
      | JSONDecodeError => fallback_analysis
      | LoadsRaised e => error_analysis e
      end
  | None => fallback_analysis
  end.

(** [categorize_and_summarize_email], as the request made after [calls]
    earlier ones. *)
Definition categorize_and_summarize_email (calls : nat)
           (email_data : EmailData) : pyval :=
  match perplexity_client self calls (analysis_request email_data) with
  | Reply (Some response_text) => parse_reply response_text
  | Reply None => error_analysis (re_search_none_error lib)
  | ApiRaised e => error_analysis e
  end.

(** [process_all_emails]; [i] is the loop index, the first request of the
    loop being the one after [i] earlier ones. The progress line of an
    iteration shows [email_data['subject'][:50]], which is evaluated before
    the analysis is requested. *)
Fixpoint process_emails_from (i : nat) (email_list : list EmailData)
  : outcome (list ProcessedEmail) :=
  match email_list with
  | [] => Ok []
  | email_data :: rest =>
      (subject50 <- header_prefix 50 (subject email_data) ;;
       let analysis := categorize_and_summarize_email i email_data in
       c <- subscript analysis "categories" ;;
       s <- subscript analysis "summary" ;;
       imp <- subscript analysis "importance" ;;
       let processed_email :=
         {| message := email_data;
            categories := c; summary := s; importance := imp |} in
       processed_emails <- process_emails_from (S i) rest ;;
       Ok (processed_email :: processed_emails))%py
  end.

Definition process_all_emails (email_list : list EmailData)
  : outcome (list ProcessedEmail) :=
  process_emails_from 0 email_list.

End Analysis.

(** The reference reader as [json.loads]. On a text that the reader does not
    support this instance answers as for a malformed one; the examples below
    use it on supported texts only. *)
Definition reference_loads (s : string) : loads_result :=
  match Json.loads s with
  | Json.Parsed v _ => Loaded v
  | Json.Malformed => JSONDecodeError
  | Json.Unsupported => JSONDecodeError
  | Json.Refused e => LoadsRaised e
  end.

(* ================================================================== *)
(** * Aggregator *)
(* ================================================================== *)

(** [category_groups], a dictionary from label to list of messages, is an
    association list in insertion order with one entry per key. *)
Definition Groups : Type := list (pyval * list ProcessedEmail).

Fixpoint group_get (groups : Groups) (category : pyval)
  : option (list ProcessedEmail) :=
  match groups with
  | [] => None
  | (k, emails) :: rest =>
      if key_eqb k category then Some emails else group_get rest category
  end.

(** The body of the inner loop:
    [if category not in category_groups: category_groups[category] = []]
    then [category_groups[category].append(email)]. *)
Fixpoint group_append (groups : Groups) (category : pyval)
         (email : ProcessedEmail) : Groups :=
  match groups with
  | [] => [(category, [email])]
  | (k, emails) :: rest =>
      if key_eqb k category then (k, (emails ++ [email])%list) :: rest
      else (k, emails) :: group_append rest category email
  end.

(** The inner loop over the labels of one message. A label that cannot be
    hashed makes the membership test raise. *)
Fixpoint add_to_groups (groups : Groups) (email : ProcessedEmail)
         (labels : list pyval) : outcome Groups :=
  match labels with
  | [] => Ok groups
  | category :: rest =>
      if hashable category
      then add_to_groups (group_append groups category email) email rest
      else Raise TypeError
  end.

(** The outer loop. *)
Fixpoint group_emails (groups : Groups) (processed_emails : list ProcessedEmail)
  : outcome Groups :=
  match processed_emails with
  | [] => Ok groups
  | email :: rest =>
      (labels <- py_iter (categories email) ;;
       groups' <- add_to_groups groups email labels ;;
       group_emails groups' rest)%py
  end.

(** The value of [category_groups] after the "Group emails by category"
    loop of [generate_category_summaries]. *)
Definition category_groups (processed_emails : list ProcessedEmail)
  : outcome Groups :=
  group_emails [] processed_emails.

Definition summary_prompt (category : pyval) (combined_summaries : string)
  : string :=
  nl ++ indent16 ++ "Please create a cohesive paragraph summary for the " ++
    py_str category ++
    " category based on these individual email summaries:" ++
  nl ++
  nl ++ indent16 ++ combined_summaries ++
  nl ++
  nl ++ indent16 ++
    "Write an easy-to-read paragraph that captures the key themes and important information from these emails." ++
  nl ++ indent16.

Definition summary_request (category : pyval) (emails : list ProcessedEmail)
  : ChatRequest :=
  let email_summaries := map summary emails in
  let combined_summaries :=
    join nl (map (fun s => "- " ++ py_str s) email_summaries) in
  {| model := "sonar-pro";
     system_content :=
       "You are an expert at creating cohesive summaries from multiple sources.";
     user_content := summary_prompt category combined_summaries;
     max_tokens := 300%Z |}.

(** [category_summaries[category] = text] *)
Fixpoint summaries_set (d : list (pyval * pyval)) (category text : pyval)
  : list (pyval * pyval) :=
  match d with
  | [] => [(category, text)]
  | (k, v) :: rest =>
      if key_eqb k category then (k, text) :: rest
      else (k, v) :: summaries_set rest category text
  end.

Section Aggregation.

Variable self : GmailAnalyzer.

(** The text stored for one category. *)
Definition summarize_category (calls : nat) (category : pyval)
           (emails : list ProcessedEmail) : pyval :=
  match perplexity_client self calls (summary_request category emails) with
  | Reply (Some text) => PStr text
  | Reply None => PNone
  | ApiRaised _ =>
      PStr ("Summary for " ++ py_str category ++ " category with " ++
            str_of_nat (List.length emails) ++ " emails.")
  end.

(** The "Generate summary for each category" loop. *)
Fixpoint summarize_groups (calls : nat) (groups : Groups)
         (category_summaries : list (pyval * pyval)) : list (pyval * pyval) :=
  match groups with
  | [] => category_summaries
  | (category, emails) :: rest =>
      if 0 <? List.length emails then
        summarize_groups (S calls) rest
          (summaries_set category_summaries category
             (summarize_category calls category emails))
      else summarize_groups calls rest category_summaries
  end.

(** [generate_category_summaries], [calls] requests having been made
    before. *)
Definition generate_category_summaries (calls : nat)
           (processed_emails : list ProcessedEmail)
  : outcome (list (pyval * pyval)) :=
  (groups <- category_groups processed_emails ;;
   Ok (summarize_groups calls groups []))%py.

End Aggregation.

(** ** Ranking *)

(** The sort key [x['importance']] when it is an [int] (or a [bool], which
    Python orders as 0 and 1). *)
Definition rank_key (e : ProcessedEmail) : option Z := as_int (importance e).

Definition key_of (e : ProcessedEmail) : Z :=
  match rank_key e with Some z => z | None => 0%Z end.

(** [sorted(..., key=..., reverse=True)] on integer keys: the stable sort in
    descending key order. An element goes in front of the first element whose
    key is not larger than its own. *)
Fixpoint insert_desc (x : ProcessedEmail) (l : list ProcessedEmail)
  : list ProcessedEmail :=
  match l with
  | [] => [x]
  | y :: rest =>
      if (key_of x <? key_of y)%Z then y :: insert_desc x rest
      else x :: y :: rest
  end.

Fixpoint sorted_desc (l : list ProcessedEmail) : list ProcessedEmail :=
  match l with
  | [] => []
  | x :: rest => insert_desc x (sorted_desc rest)
  end.

(** [l[:n]]: a negative [n] counts from the end. *)
Definition slice_to {A} (l : list A) (n : Z) : list A :=
  if (n <? 0)%Z then firstn (Z.to_nat (Z.of_nat (List.length l) + n)) l
  else firstn (Z.to_nat n) l.

Definition int_key (e : ProcessedEmail) : bool :=
  match rank_key e with Some _ => true | None => false end.

(** [get_top_important_emails]. The model gives a result when every
    importance is an integer. With other values Python compares by the rules
    of their types, or raises [TypeError] on a comparison the sort happens to
    make; the model gives [None] there. *)
Definition get_top_important_emails (processed_emails : list ProcessedEmail)
           (top_n : Z) : option (list ProcessedEmail) :=
  if forallb int_key processed_emails
  then Some (slice_to (sorted_desc processed_emails) top_n)
  else None.

Definition default_top_n : Z := 10%Z.

(* ================================================================== *)
(** * Report Builder *)
(* ================================================================== *)

(** A reading of the clock, [datetime.now()]. *)
Record datetime : Type := mkDatetime {
  year : nat; month : nat; day : nat;
  hour : nat; minute : nat; second : nat
}.

Definition two_digits (n : nat) : string :=
  if n <? 10 then "0" ++ str_of_nat n else str_of_nat n.

(** [strftime('%Y-%m-%d %H:%M:%S')], for a year of four digits. *)
Definition strftime (t : datetime) : string :=
  str_of_nat (year t) ++ "-" ++ two_digits (month t) ++ "-" ++
  two_digits (day t) ++ " " ++ two_digits (hour t) ++ ":" ++
  two_digits (minute t) ++ ":" ++ two_digits (second t).

Definition report_title : string := nl ++ "# Gmail Email Analysis Report" ++ nl ++ "Generated: ".

(** The first f-string of [generate_report]: what precedes the clock
    reading, the reading, and what follows it. *)
Definition report_counts (processed_emails : list ProcessedEmail) : string :=
  nl ++
  nl ++ "## Summary" ++
  nl ++ "Analyzed " ++ str_of_nat (List.length processed_emails) ++
    " emails from the past " ++ str_of_int HOURS_TO_FETCH ++ " hours." ++ nl ++
  nl ++ "## Category Summaries" ++ nl ++
  nl.

Definition report_head (now : datetime) (processed_emails : list ProcessedEmail)
  : string :=
  report_title ++ strftime now ++ report_counts processed_emails.

Fixpoint category_sections (category_summaries : list (pyval * pyval)) : string :=
  match category_summaries with
  | [] => ""
  | (category, text) :: rest =>
      "### " ++ py_str category ++ nl ++ py_str text ++ nl ++ nl ++
      category_sections rest
  end.

(** One line of the brief list. *)
Definition brief_entry (i : nat) (email : ProcessedEmail) : outcome string :=
  (subject60 <- header_prefix 60 (subject (message email)) ;;
   subject_len <- header_len (subject (message email)) ;;
   summary80 <- py_prefix 80 (summary email) ;;
   summary_len <- py_len (summary email) ;;
   Ok (str_of_nat i ++ ". **" ++ subject60 ++
       (if 60 <? subject_len then "..." else "") ++
       "** - " ++ py_str summary80 ++
       (if 80 <? summary_len then "..." else "") ++
       " (Importance: " ++ py_str (importance email) ++ "/10)" ++ nl ++ nl))%py.

Fixpoint brief_list (i : nat) (top_emails : list ProcessedEmail)
  : outcome string :=
  match top_emails with
  | [] => Ok ""
  | email :: rest =>
      (entry <- brief_entry i email ;;
       more <- brief_list (S i) rest ;;
       Ok (entry ++ more))%py
  end.

(** One block of the detailed list. *)
Definition detailed_entry (i : nat) (email : ProcessedEmail) : outcome string :=
  (labels <- py_join ", " (categories email) ;;
   Ok ("### " ++ str_of_nat i ++ ". " ++ header_str (subject (message email)) ++ nl ++
       "**From:** " ++ from (message email) ++ nl ++
       "**Categories:** " ++ labels ++ nl ++
       "**Importance:** " ++ py_str (importance email) ++ "/10" ++ nl ++
       "**Summary:** " ++ py_str (summary email) ++ nl ++ nl))%py.

Fixpoint detailed_list (i : nat) (top_emails : list ProcessedEmail)
  : outcome string :=
  match top_emails with
  | [] => Ok ""
  | email :: rest =>
      (entry <- detailed_entry i email ;;
       more <- detailed_list (S i) rest ;;
       Ok (entry ++ more))%py
  end.

(** [generate_report]; [now] is what [datetime.now()] returns during the
    call. *)
Definition generate_report (now : datetime)
           (processed_emails : list ProcessedEmail)
           (category_summaries : list (pyval * pyval))
           (top_emails : list ProcessedEmail) : outcome string :=
  (let report := report_head now processed_emails in
   let report := report ++ category_sections category_summaries in
   let report := report ++ "## Top 10 Most Important Emails (Brief)" ++ nl ++ nl in
   brief <- brief_list 1 top_emails ;;
   let report := report ++ brief in
   let report :=
     report ++ "## Top 10 Most Important Emails (Detailed Summaries)" ++ nl ++ nl in
   detailed <- detailed_list 1 top_emails ;;
   Ok (report ++ detailed))%py.

(* ================================================================== *)
(** * Mail Session and the run *)
(* ================================================================== *)

(** The state of an [imaplib] connection after login. *)
Inductive imap_state : Type := AUTH | SELECTED | LOGOUT.

(** Methods of the connection object that [run] and its callees call. *)
Inductive mail_call : Type :=
| CallSelect
| CallSearch
| CallFetch (email_id : string)
| CallClose
| CallLogout.

(** What the server side does during one run. [None] stands for "the call
    raises". *)
Record ImapServer : Type := mkImapServer {
  (** [IMAP4_SSL(...)] and [login] both return *)
  accepts_login : bool;
  (** the status [select("inbox")] returns *)
  select_reply : option string;
  (** the status [search] returns and the value of [data[0].split()] *)
  search_reply : option (string * option (list string));
  fetch_reply : string -> fetch_response;
  (** a CLOSE command that is sent goes through *)
  close_completes : bool;
  (** [logout] returns *)
  logout_completes : bool
}.

(** The connection object: its state and the calls made on it, oldest
    first. *)
Record Mail : Type := mkMail {
  state : imap_state;
  calls : list mail_call
}.

Definition called (c : mail_call) (mail : Mail) : Mail :=
  {| state := state mail; calls := (calls mail ++ [c])%list |}.

Definition set_state (s : imap_state) (mail : Mail) : Mail :=
  {| state := s; calls := calls mail |}.

Definition in_selected (mail : Mail) : bool :=
  match state mail with SELECTED => true | _ => false end.

(** Exceptions that leave [run]. *)
Inductive run_exn : Type :=
| ImapError                      (* [imaplib.IMAP4.error] or a subclass *)
| StepError (e : Py.exn).

Section Run.

Variable lib : Libraries.
Variable self : GmailAnalyzer.
Variable server : ImapServer.

(** Lines 405 to 417 of [run]: [process_all_emails],
    [generate_category_summaries], [get_top_important_emails],
    [generate_report] and [send_email_report] in a row. None of them uses
    the connection; the run only depends on whether they return. *)
Variable analyse_and_report : list EmailData -> outcome unit.

(** [connect_to_server] *)
Definition connect_to_server : option Mail :=
  if accepts_login server then Some {| state := AUTH; calls := [] |}
  else None.

(** [mail.select("inbox")]: [imaplib] leaves the connection in state
    SELECTED when the status is OK and in state AUTH otherwise. *)
Definition mail_select (mail : Mail) : option string * Mail :=
  let mail := called CallSelect mail in
  match select_reply server with
  | None => (None, mail)
  | Some status =>
      if String.eqb status "OK" then (Some status, set_state SELECTED mail)
      else (Some status, set_state AUTH mail)
  end.

(** [mail.search(None, criteria)]: legal in state SELECTED only. *)
Definition mail_search (mail : Mail)
  : option (string * option (list string)) * Mail :=
  let mail := called CallSearch mail in
  if in_selected mail then (search_reply server, mail) else (None, mail).

(** [get_all_message_ids]: every exception is caught and gives []. *)
Definition get_all_message_ids (mail : Mail) : list string * Mail :=
  match mail_select mail with
  | (None, mail) => ([], mail)
  | (Some status, mail) =>
      if negb (String.eqb status "OK") then ([], mail)
      else
        match mail_search mail with
        | (None, mail) => ([], mail)
        | (Some (status, ids), mail) =>
            if negb (String.eqb status "OK") then ([], mail)
            else match ids with
                 | Some message_ids => (message_ids, mail)
                 | None => ([], mail)
                 end
        end
  end.

(** [mail.fetch(email_id, '(RFC822)')]: legal in state SELECTED only. *)
Definition mail_fetch (mail : Mail) (email_id : string) : fetch_response :=
  if in_selected mail then fetch_reply server email_id else FetchRaises.

(** [mail.close()]: [imaplib] raises without sending the command unless
    the state is SELECTED, and leaves the state AUTH in every case. *)
Definition mail_close (mail : Mail) : bool * Mail :=
  let ok := in_selected mail && close_completes server in
  (ok, set_state AUTH (called CallClose mail)).

(** [mail.logout()]: the state is LOGOUT from the start of the call. *)
Definition mail_logout (mail : Mail) : bool * Mail :=
  (logout_completes server, set_state LOGOUT (called CallLogout mail)).

(** The [finally] block: [mail.close()] then [mail.logout()]. An exception
    raised here replaces the pending outcome of the [try] block. *)
Definition clean_up (pending : outcome unit) (mail : Mail)
  : (unit + run_exn) * Mail :=
  match mail_close mail with
  | (false, mail) => (inr ImapError, mail)
  | (true, mail) =>
      match mail_logout mail with
      | (false, mail) => (inr ImapError, mail)
      | (true, mail) =>
          match pending with
          | Ok _ => (inl tt, mail)
          | Raise e => (inr (StepError e), mail)
          end
      end
  end.

(** The [try] block of [run]. *)
Definition run_body (mail : Mail) : outcome unit * Mail :=
  let '(message_ids, mail) := get_all_message_ids mail in
  match message_ids with
  | [] => (Ok tt, mail)
  | _ :: _ =>
      let email_list :=
        fetch_messages lib self (mail_fetch mail) message_ids in
      let mail :=
        {| state := state mail;
           calls := (calls mail ++ map CallFetch message_ids)%list |} in
      match email_list with
      | [] => (Ok tt, mail)
      | _ :: _ => (analyse_and_report email_list, mail)
      end
  end.

(** [run]: [None] when no connection was opened, otherwise how the run
    ends and the connection object as it is left. *)
Definition run : option ((unit + run_exn) * Mail) :=
  match connect_to_server with
  | None => None
  | Some mail =>
      let '(pending, mail) := run_body mail in
      Some (clean_up pending mail)
  end.

End Run.

(* ================================================================== *)
(** * Delivery *)
(* ================================================================== *)

(** What one call on the SMTP side does: it returns, or it raises an
    exception whose [str()] is [text]. *)
Inductive smtp_step : Type :=
| Done
| Fails (text : string).

(** What the SMTP side does during [send_email_report], call by call:
    [smtplib.SMTP('smtp.gmail.com', 587)], [starttls], [login],
    [send_message], [quit]. *)
Record SmtpServer : Type := mkSmtpServer {
  smtp_open : smtp_step;
  smtp_starttls : smtp_step;
  smtp_login : smtp_step;
  smtp_send_message : smtp_step;
  smtp_quit : smtp_step
}.

(** The message [send_email_report] builds. *)
Record Outbound : Type := mkOutbound {
  out_from : option string;
  out_to : option string;
  out_subject : string;
  out_body : string
}.

(** Calls on the SMTP side. The password of [login] is not represented. *)
Inductive smtp_call : Type :=
| CallOpen
| CallStarttls
| CallLogin (user : option string)
| CallSendMessage (msg : Outbound)
| CallQuit.

(** What [send_email_report] leaves behind: the calls made on the SMTP side,
    oldest first, and the lines it printed. For this method the printed
    lines are part of the model, because printing the report is its fallback. *)
Record Delivery : Type := mkDelivery {
  smtp_calls : list smtp_call;
  printed : list string
}.

(** [strftime('%Y-%m-%d')], for a year of four digits. *)
Definition strftime_date (t : datetime) : string :=
  str_of_nat (year t) ++ "-" ++ two_digits (month t) ++ "-" ++
  two_digits (day t).

(** The handler of [send_email_report], [e] being [str(e)]. *)
Definition delivery_failed (made : list smtp_call) (e report : string)
  : Delivery :=
  {| smtp_calls := made;
     printed := [ "Sending email report...";
                  "Error sending email: " ++ e;
                  "Report content:";
                  report ] |}.

(** [send_email_report]; [now] is what [datetime.now()] returns during the
    call. *)
Definition send_email_report (self : GmailAnalyzer) (smtp : SmtpServer)
           (now : datetime) (report : string) : Delivery :=
  let msg :=
    {| out_from := gmail_account_username self;
       out_to := gmail_account_username self;
       out_subject := "Gmail Analysis Report - " ++ strftime_date now;
       out_body := report |} in
  let c1 := [CallOpen] in
  match smtp_open smtp with
  | Fails e => delivery_failed c1 e report
  | Done =>
      let c2 := (c1 ++ [CallStarttls])%list in
      match smtp_starttls smtp with
      | Fails e => delivery_failed c2 e report
      | Done =>
          let c3 := (c2 ++ [CallLogin (gmail_account_username self)])%list in
          match smtp_login smtp with
          | Fails e => delivery_failed c3 e report
          | Done =>
              let c4 := (c3 ++ [CallSendMessage msg])%list in
              match smtp_send_message smtp with
              | Fails e => delivery_failed c4 e report
              | Done =>
                  let c5 := (c4 ++ [CallQuit])%list in
                  match smtp_quit smtp with
                  | Fails e => delivery_failed c5 e report
                  | Done =>
                      {| smtp_calls := c5;
                         printed := [ "Sending email report...";
                                      "Email report sent successfully!" ] |}
                  end
              end
          end
      end
  end.

(** The steps of [run] that follow the fetch loop: [process_all_emails],
    [generate_category_summaries], [get_top_important_emails] with its
    default count, [generate_report] and [send_email_report]. The service
    has answered one request per message when the category summaries start.
    [now1] and [now2] are the clock readings of the report and of the subject
    line. The result is [None] where the ranking has no value in the model. *)
Definition run_steps (lib : Libraries) (self : GmailAnalyzer)
           (smtp : SmtpServer) (now1 now2 : datetime)
           (email_list : list EmailData) : option (outcome Delivery) :=
  match process_all_emails lib self email_list with
  | Raise e => Some (Raise e)
  | Ok processed_emails =>
      match generate_category_summaries self (List.length email_list)
                                        processed_emails with
      | Raise e => Some (Raise e)
      | Ok category_summaries =>
          match get_top_important_emails processed_emails default_top_n with
          | None => None
          | Some top_emails =>
              match generate_report now1 processed_emails category_summaries
                                    top_emails with
              | Raise e => Some (Raise e)
              | Ok report =>
                  Some (Ok (send_email_report self smtp now2 report))
              end
          end
      end
  end.

(* ================================================================== *)
(** * Vocabulary of the statements and sample inputs *)
(* ================================================================== *)

(** ** Extraction and fetching *)

(** Every character of [s] is white space. *)
Fixpoint all_space (s : string) : bool :=
  match s with
  | EmptyString => true
  | String c t => isspace c && all_space t
  end.

(** A message the owner sent, the address written with capitals. *)
Definition owner_mail : Message :=
  Single [("From", HStr "Me <ME@Gmail.com>"); ("Subject", HStr "note to self")]
         "text/plain" (Some "remember the milk").

(** A message from somebody else, with text. *)
Definition external_mail : Message :=
  Single [("From", HStr "Ann <ann@example.org>"); ("Subject", HStr "lunch")]
         "text/plain" (Some "  see you at noon  ").

(** Libraries for the sample runs: no HTML converter works, and [json.loads]
    is the reference reader. *)
Definition no_libraries : Libraries :=
  {| html2text_handle := fun _ => None;
     soup_get_text := fun _ => None;
     json_loads := reference_loads;
     re_search_none_error := "expected string or bytes-like object" |}.

(** A service that cannot be reached. *)
Definition silent_client (n : nat) (r : ChatRequest) : completion :=
  ApiRaised "Connection error.".

(** The analyzer of the sample runs. *)
Definition me : GmailAnalyzer :=
  {| gmail_account_username := Some "me@gmail.com";
     perplexity_client := silent_client |}.

(** An inbox with the two messages above, under the identifiers 1 and 2. *)
Definition two_message_inbox (email_id : string) : fetch_response :=
  if String.eqb email_id "1" then FetchReturns "OK" (Some owner_mail)
  else if String.eqb email_id "2" then FetchReturns "OK" (Some external_mail)
  else FetchReturns "NO" None.

(** ** Analysis *)

(** The object of the second end-to-end scenario, and a reply that wraps it
    in prose. *)
Definition scenario_json : string :=
  "{" ++ quoted "categories" ++ ":[" ++ quoted "WORK" ++ "," ++
  quoted "FINANCE" ++ "]," ++ quoted "summary" ++ ":" ++ quoted "S" ++ "," ++
  quoted "importance" ++ ":7}".

Definition scenario_reply : string :=
  "Here is the analysis you asked for: " ++ scenario_json ++
  " I hope this helps.".

(** An analyzer whose service answers every request with [text]. *)
Definition replying (text : string) : GmailAnalyzer :=
  {| gmail_account_username := Some "me@gmail.com";
     perplexity_client := fun _ _ => Reply (Some text) |}.

(** A header value is a [str]. *)
Definition is_text (h : header_value) : bool :=
  match h with
  | HStr _ => true
  | HHeader _ => false
  end.

(** A reply whose object holds an integer literal of 4301 digits, and the
    reply that wraps it in prose. *)
Definition long_integer_json : string :=
  "{" ++ quoted "importance" ++ ":" ++ String.concat "" (repeat "1" 4301) ++
  "}".

Definition long_integer_reply : string :=
  "Here is the analysis: " ++ long_integer_json.

(** The record extracted from [external_mail]. *)
Definition lunch_mail : EmailData :=
  {| subject := HStr "lunch"; from := "Ann <ann@example.org>"; to := HStr "";
     date := HStr ""; body := "see you at noon"; is_from_me := false |}.

(** The analysis result is a fallback dictionary. *)
Definition is_fallback (analysis : pyval) : Prop :=
  analysis = fallback_analysis \/ exists e, analysis = error_analysis e.

(** The analysis result is the value read from the reply. *)
Definition is_parsed lib self (calls : nat) (email_data : EmailData)
           (analysis : pyval) : Prop :=
  exists text span,
    perplexity_client self calls (analysis_request email_data)
      = Reply (Some text) /\
    brace_span text = Some span /\
    json_loads lib span = Loaded analysis.

(** The invariant the specification states for an AnalyzedMessage: an
    integer importance from 1 to 10, and one to three categories, each from
    the list of the analyzer. *)
Definition spec_analyzed_invariant (p : ProcessedEmail) : Prop :=
  (exists z, importance p = PInt z /\ (1 <= z <= 10)%Z) /\
  (exists labels, categories p = PList (map PStr labels) /\
                  1 <= List.length labels <= 3 /\
                  Forall (fun c => In c analyzer_categories) labels).

(** A reply whose object is well formed and whose values are out of range. *)
Definition out_of_range_json : string :=
  "{" ++ quoted "categories" ++ ":[" ++ quoted "URGENT" ++ "," ++
  quoted "WORK" ++ "," ++ quoted "NEWS" ++ "," ++ quoted "FOOD" ++ "]," ++
  quoted "summary" ++ ":" ++ quoted "S" ++ "," ++
  quoted "importance" ++ ":99}".

(** A reply whose object has no category and an importance of 0. *)
Definition no_category_json : string :=
  "{" ++ quoted "categories" ++ ":[]," ++ quoted "summary" ++ ":" ++
  quoted "S" ++ "," ++ quoted "importance" ++ ":0}".

(** The analysis result can be read under the three keys. *)
Definition has_keys (analysis : pyval) : Prop :=
  exists c s imp,
    subscript analysis "categories" = Ok c /\
    subscript analysis "summary" = Ok s /\
    subscript analysis "importance" = Ok imp.

(** An analyzer whose service answers the first request with [first] and
    every later one with [later]. *)
Definition replying_then (first later : string) : GmailAnalyzer :=
  {| gmail_account_username := Some "me@gmail.com";
     perplexity_client :=
       fun n _ => if n =? 0 then Reply (Some first) else Reply (Some later) |}.

(** A reply whose object lacks the summary. *)
Definition no_summary_json : string :=
  "{" ++ quoted "categories" ++ ":[" ++ quoted "WORK" ++ "]," ++
  quoted "importance" ++ ":3}".

(** ** Grouping *)

(** The strings among the items of a list value. *)
Definition str_labels (v : pyval) : list string :=
  match v with
  | PList items =>
      flat_map (fun x => match x with PStr s => [s] | _ => [] end) items
  | _ => []
  end.

(** The labels of a message whose categories are a list of strings. *)
Definition labels (e : ProcessedEmail) : list string :=
  str_labels (categories e).

(** The categories of [e] are a list of strings. *)
Definition labelled (e : ProcessedEmail) : Prop :=
  categories e = PList (map PStr (labels e)).

(** How often [e] carries the label [c]. *)
Definition occurrences (c : string) (e : ProcessedEmail) : nat :=
  count_occ string_dec (labels e) c.

(** The messages carrying label [c], each as often as it carries it, in the
    order of the batch. *)
Definition group_of (c : string) (processed_emails : list ProcessedEmail)
  : list ProcessedEmail :=
  flat_map (fun e => repeat e (occurrences c e)) processed_emails.

(** A group as the dictionary holds it: a key is only created together with
    its first message. *)
Definition as_group (g : list ProcessedEmail) : option (list ProcessedEmail) :=
  match g with
  | [] => None
  | _ :: _ => Some g
  end.

(** [groups] holds, for each string key, the messages that [f] gives. *)
Definition holds (groups : Groups) (f : string -> list ProcessedEmail) : Prop :=
  forall c, group_get groups (PStr c) = as_group (f c).

(** The messages under key [c], none when the key is absent. *)
Definition content (groups : Groups) (c : string) : list ProcessedEmail :=
  match group_get groups (PStr c) with
  | Some g => g
  | None => []
  end.

(** A processed message with the given subject and labels. *)
Definition tagged (name : string) (tags : list string) : ProcessedEmail :=
  {| message := {| subject := HStr name; from := "Ann <ann@example.org>";
                   to := HStr ""; date := HStr ""; body := "text";
                   is_from_me := false |};
     categories := PList (map PStr tags);
     summary := PStr "S";
     importance := PInt 5 |}.

(** The batch of the third end-to-end scenario. *)
Definition scenario_batch : list ProcessedEmail :=
  [ tagged "first" ["WORK"];
    tagged "second" ["WORK"; "FINANCE"];
    tagged "third" ["FINANCE"] ].

(** A batch with a label outside the list of the analyzer, carried twice by
    the first message. *)
Definition repeated_label_batch : list ProcessedEmail :=
  [ tagged "first" ["URGENT"; "WORK"; "URGENT"]; tagged "second" ["URGENT"] ].

(** ** Ranking *)

(** The order of the ranking: [a] may stand before [b]. *)
Definition ranks_before (a b : ProcessedEmail) : Prop :=
  (key_of b <= key_of a)%Z.

(** The importance of [e] is [k]. *)
Definition has_key (k : Z) (e : ProcessedEmail) : bool := (key_of e =? k)%Z.

(** The importance of [e] is the integer [z]. *)
Definition has_importance (z : Z) (e : ProcessedEmail) : bool :=
  match importance e with
  | PInt z' => (z' =? z)%Z
  | _ => false
  end.

(** A processed message with the given subject and importance. *)
Definition rated (name : string) (score : Z) : ProcessedEmail :=
  {| message := {| subject := HStr name; from := "Ann <ann@example.org>";
                   to := HStr ""; date := HStr ""; body := "text";
                   is_from_me := false |};
     categories := PList [PStr "WORK"];
     summary := PStr "S";
     importance := PInt score |}.

(** A batch with two ties. *)
Definition rated_batch : list ProcessedEmail :=
  [ rated "a" 5; rated "b" 9; rated "c" 5; rated "d" 7; rated "e" 9 ].

(** ** Report and run *)

(** Two clock readings one second apart. *)
Definition one_second_earlier : datetime :=
  {| year := 2026; month := 1; day := 2; hour := 3; minute := 4; second := 5 |}.

Definition one_second_later : datetime :=
  {| year := 2026; month := 1; day := 2; hour := 3; minute := 4; second := 6 |}.

(** A server that accepts the login and refuses to select the inbox. *)
Definition inbox_refused : ImapServer :=
  {| accepts_login := true;
     select_reply := Some "NO";
     search_reply := None;
     fetch_reply := fun _ => FetchRaises;
     close_completes := true;
     logout_completes := true |}.

(** A server whose connection drops while the messages are analysed: the
    CLOSE command does not complete. *)
Definition connection_lost : ImapServer :=
  {| accepts_login := true;
     select_reply := Some "OK";
     search_reply := Some ("OK", Some ["2"]);
     fetch_reply := two_message_inbox;
     close_completes := false;
     logout_completes := false |}.

(** A server that holds one message from somebody else and completes every
    command. *)
Definition healthy_server : ImapServer :=
  {| accepts_login := true;
     select_reply := Some "OK";
     search_reply := Some ("OK", Some ["2"]);
     fetch_reply := two_message_inbox;
     close_completes := true;
     logout_completes := true |}.

(** The steps of [run] after fetching, up to and including
    [process_all_emails]; this is all of them when that call raises. *)
Definition analysis_then_nothing lib self (email_list : list EmailData)
  : outcome unit :=
  (_ <- process_all_emails lib self email_list ;; Ok tt)%py.

(** Closing goes through when the session has a selected mailbox and the
    server completes the command. *)
Definition close_returns (server : ImapServer) (mail : Mail) : bool :=
  in_selected mail && close_completes server.

(** ** Further vocabulary *)

(** A part whose text reaches the body: a decodable [text/plain] or
    [text/html] part. *)
Definition is_text_part (part : Message) : bool :=
  match decoded_payload part with
  | Some _ =>
      String.eqb (get_content_type part) "text/plain"
      || String.eqb (get_content_type part) "text/html"
  | None => false
  end.

(** The text of a message read off its tree: a leaf gives its decoded
    payload when its type is [text/plain], the conversion of its payload when
    its type is [text/html] (the first of the two HTML converters that
    returns, or the markup itself when both raise), and nothing when it has
    another type or cannot be decoded; a container gives the texts of its
    parts one after the other. *)
Fixpoint tree_text (lib : Libraries) (m : Message) : string :=
  match m with
  | Single _ content_type (Some t) =>
      if String.eqb content_type "text/plain" then t
      else if String.eqb content_type "text/html" then
        match html2text_handle lib t, soup_get_text lib t with
        | Some converted, _ => converted
        | None, Some stripped => stripped
        | None, None => t
        end
      else ""
  | Single _ _ None => ""
  | Multipart _ _ parts => String.concat "" (map (tree_text lib) parts)
  end.

(** [select] answers OK. *)
Definition select_ok (server : ImapServer) : bool :=
  match select_reply server with
  | Some status => String.eqb status "OK"
  | None => false
  end.

(** The identifiers the server lists: those of a search that answers OK
    after a select that answers OK. *)
Definition listed (server : ImapServer) : list string :=
  if select_ok server then
    match search_reply server with
    | Some (status, Some ids) => if String.eqb status "OK" then ids else []
    | _ => []
    end
  else [].

(** The messages the fetch loop of a run keeps. *)
Definition relevant_mails (lib : Libraries) (self : GmailAnalyzer)
           (server : ImapServer) : list EmailData :=
  fetch_messages lib self (fetch_reply server) (listed server).

(** How a run ends when the clean-up goes through. *)
Definition ending_of (pending : outcome unit) : unit + run_exn :=
  match pending with
  | Ok _ => inl tt
  | Raise e => inr (StepError e)
  end.

(** A message from an address that contains the owner's. *)
Definition lookalike_mail : Message :=
  Single [("From", HStr "Bob <notme@gmail.com>"); ("Subject", HStr "hello")]
         "text/plain" (Some "hello from Bob").

(** An analyzer whose username variable is set and empty. *)
Definition nameless : GmailAnalyzer :=
  {| gmail_account_username := Some "";
     perplexity_client := silent_client |}.

(** A server that lists the owner's own message only. *)
Definition own_mail_only : ImapServer :=
  {| accepts_login := true;
     select_reply := Some "OK";
     search_reply := Some ("OK", Some ["1"]);
     fetch_reply := two_message_inbox;
     close_completes := true;
     logout_completes := true |}.

(** Analysis steps that fail. *)
Definition failing_steps (email_list : list EmailData) : outcome unit :=
  Raise (KeyError "categories").

(** The connection object when the [try] block of a run is left. *)
Definition session_after_fetch (server : ImapServer) : Mail :=
  {| state := if select_ok server then SELECTED else AUTH;
     calls := CallSelect ::
              (if select_ok server
               then CallSearch :: map CallFetch (listed server)
               else []) |}.

(** How the [try] block of a run ends: the analysis steps are run on the
    relevant messages when there is one. *)
Definition pending_of (lib : Libraries) (self : GmailAnalyzer)
           (server : ImapServer)
           (analyse_and_report : list EmailData -> outcome unit)
  : outcome unit :=
  match relevant_mails lib self server with
  | [] => Ok tt
  | _ :: _ => analyse_and_report (relevant_mails lib self server)
  end.

(** The clean-up of a run goes through. *)
Definition released (server : ImapServer) : bool :=
  select_ok server && close_completes server && logout_completes server.

(** A text of 2000 characters. *)
Definition two_thousand_characters : string :=
  String.concat "" (repeat "0123456789" 200).

(** Two records that agree on the subject, the sender and the first 2000
    characters of the body, and differ in everything else. *)
Definition long_mail_a : EmailData :=
  {| subject := HStr "minutes"; from := "Ann <ann@example.org>";
     to := HStr "me@gmail.com"; date := HStr "Mon, 1 Jun 2026";
     body := two_thousand_characters ++ " ending A"; is_from_me := false |}.

Definition long_mail_b : EmailData :=
  {| subject := HStr "minutes"; from := "Ann <ann@example.org>";
     to := HStr "list@example.org"; date := HStr "Tue, 2 Jun 2026";
     body := two_thousand_characters ++ " another ending"; is_from_me := false |}.

(** The grouping loop can take the categories of [e]: they can be iterated
    and every item can be hashed. *)
Definition groupable (e : ProcessedEmail) : bool :=
  match py_iter (categories e) with
  | Ok items => forallb hashable items
  | Raise _ => false
  end.

(** No two keys of the list are the same dictionary key. *)
Fixpoint distinct_keys (keys : list pyval) : bool :=
  match keys with
  | [] => true
  | k :: rest =>
      forallb (fun k' => negb (key_eqb k k')) rest && distinct_keys rest
  end.

(** The keys of the dictionary of groups, in its order. *)
Definition keys_of (groups : Groups) : list pyval := map fst groups.

(** What the grouping loop keeps true of the dictionary: no key twice, no
    group without a message. *)
Definition well_formed_groups (groups : Groups) : Prop :=
  distinct_keys (keys_of groups) = true /\
  Forall (fun kv => snd kv <> []) groups.

(** One summary per group, in the order of the groups, the first one from
    the request made after [calls] earlier ones. *)
Fixpoint summaries_of (self : GmailAnalyzer) (calls : nat) (groups : Groups)
  : list (pyval * pyval) :=
  match groups with
  | [] => []
  | (category, emails) :: rest =>
      (category, summarize_category self calls category emails)
      :: summaries_of self (S calls) rest
  end.

(** The labels of [ls] in the order in which they are first met, after those
    of [seen]. *)
Fixpoint first_seen (seen : list string) (ls : list string) : list string :=
  match ls with
  | [] => seen
  | c :: rest =>
      first_seen (if existsb (fun s => String.eqb s c) seen then seen
                  else (seen ++ [c])%list) rest
  end.

(** A record whose subject is a [Header] object: the header was sent as raw
    bytes above ASCII. *)
Definition header_subject_mail : EmailData :=
  {| subject := HHeader "caf?"; from := "Ann <ann@example.org>";
     to := HStr ""; date := HStr ""; body := "text"; is_from_me := false |}.

(** A message whose sender is a [Header] object. *)
Definition header_from_mail : Message :=
  Single [("From", HHeader "Jos? <jose@example.org>"); ("Subject", HStr "hola")]
         "text/plain" (Some "text").

(** A processed message whose categories are not a list: the number 3. *)
Definition numbered_categories : ProcessedEmail :=
  {| message := lunch_mail;
     categories := PInt 3;
     summary := PStr "S";
     importance := PInt 5 |}.

(** A service that answers the first request and fails from then on. *)
Definition one_answer_client (n : nat) (r : ChatRequest) : completion :=
  if n =? 0 then Reply (Some "Work was busy.") else ApiRaised "Rate limit.".

Definition one_answer : GmailAnalyzer :=
  {| gmail_account_username := Some "me@gmail.com";
     perplexity_client := one_answer_client |}.

(** [v[:80]] and [len(v)] are defined: [v] is a string or a list. *)
Definition sliceable (v : pyval) : bool :=
  match v with
  | PStr _ | PList _ => true
  | _ => false
  end.

Definition is_str (v : pyval) : bool :=
  match v with PStr _ => true | _ => false end.

(** [', '.join(v)] is defined: [v] can be iterated and yields strings. *)
Definition joinable (v : pyval) : bool :=
  match py_iter v with
  | Ok items => forallb is_str items
  | Raise _ => false
  end.

(** The report can show [e] among the top messages. *)
Definition renderable (e : ProcessedEmail) : bool :=
  is_text (subject (message e)) && sliceable (summary e)
  && joinable (categories e).

(** A processed message whose summary is JSON [null]. *)
Definition null_summary : ProcessedEmail :=
  {| message := lunch_mail;
     categories := PList [PStr "WORK"];
     summary := PNone;
     importance := PInt 5 |}.

(** Every call of the delivery returns. *)
Definition all_done (smtp : SmtpServer) : bool :=
  match smtp_open smtp, smtp_starttls smtp, smtp_login smtp,
        smtp_send_message smtp, smtp_quit smtp with
  | Done, Done, Done, Done, Done => true
  | _, _, _, _, _ => false
  end.

(** [send_message] is reached and returns: the server has the message. *)
Definition handed_over (smtp : SmtpServer) : bool :=
  match smtp_open smtp, smtp_starttls smtp, smtp_login smtp,
        smtp_send_message smtp with
  | Done, Done, Done, Done => true
  | _, _, _, _ => false
  end.

(** The lines printed by a delivery that fails with error text [e]. *)
Definition failure_lines (e report : string) : list string :=
  [ "Sending email report..."; "Error sending email: " ++ e;
    "Report content:"; report ].

(** An SMTP side on which everything works but the final [quit]. *)
Definition quit_fails : SmtpServer :=
  {| smtp_open := Done; smtp_starttls := Done; smtp_login := Done;
     smtp_send_message := Done; smtp_quit := Fails "Connection reset." |}.

(** An SMTP side that cannot be reached. *)
Definition smtp_down : SmtpServer :=
  {| smtp_open := Fails "Connection refused."; smtp_starttls := Done;
     smtp_login := Done; smtp_send_message := Done; smtp_quit := Done |}.

(** An analysis result with a list of strings as categories, a string as
    summary and an integer as importance, whatever their values. *)
Definition well_typed_analysis (analysis : pyval) : Prop :=
  exists ls s z,
    subscript analysis "categories" = Ok (PList (map PStr ls)) /\
    subscript analysis "summary" = Ok (PStr s) /\
    subscript analysis "importance" = Ok (PInt z).

(** What stands between the outer braces of a reply that ends with a smiley
    after its object. *)
Definition object_and_smiley : string :=
  quoted "summary" ++ ":" ++ quoted "S" ++ "} :-".

(* ################################################################## *)
(** * Properties *)
(* ################################################################## *)

(** ** Facts about [strip] *)

Lemma lstrip_blank (s : string) : all_space s = true -> lstrip s = "".
Proof.
  induction s as [|c t IH]; simpl; [reflexivity|].
  intros H. apply andb_true_iff in H as [Hc Ht].
  rewrite Hc. now apply IH.
Qed.

Lemma strip_blank (s : string) : all_space s = true -> strip s = "".
Proof.
  intros H. unfold strip. now rewrite (lstrip_blank s H).
Qed.

Lemma rstrip_head (c : ascii) (t : string) :
  isspace c = false -> rstrip (String c t) = String c (rstrip t).
Proof.
  intros Hc. simpl. rewrite Hc. now destruct (rstrip t).
Qed.

Lemma rstrip_idempotent (s : string) : rstrip (rstrip s) = rstrip s.
Proof.
  induction s as [|c t IH]; [reflexivity|].
  simpl. destruct (rstrip t) as [|d t'] eqn:E.
  - destruct (isspace c) eqn:Hc; [reflexivity|].
    simpl. now rewrite Hc.
  - change (rstrip (String c (String d t')) = String c (String d t')).
    simpl. simpl in IH. now rewrite IH.
Qed.

Lemma lstrip_shape (s : string) :
  lstrip s = "" \/ exists c t, lstrip s = String c t /\ isspace c = false.
Proof.
  induction s as [|c t IH]; simpl; [now left|].
  destruct (isspace c) eqn:Hc; [exact IH|].
  right. now exists c, t.
Qed.

Lemma strip_idempotent (s : string) : strip (strip s) = strip s.
Proof.
  unfold strip.
  destruct (lstrip_shape s) as [E | (c & t & E & Hc)]; rewrite E.
  - reflexivity.
  - rewrite (rstrip_head c t Hc). simpl lstrip. rewrite Hc.
    rewrite <- (rstrip_head c t Hc). apply rstrip_idempotent.
Qed.

(** ** Extraction *)

Lemma extract_from_header lib self m r :
  extract_email_data lib self (Some m) = Some r ->
  msg_get m "From" "" = HStr (from r).
Proof.
  unfold extract_email_data.
  destruct (msg_headers m); [discriminate|].
  destruct (gmail_account_username self); [|discriminate].
  destruct (msg_get m "From" ""); [|discriminate].
  destruct (owner_in_from _ _); intros [= <-]; reflexivity.
Qed.

(** A record marked as the owner's carries no body (first testable property
    of the specification). *)
Lemma from_owner_no_body lib self msg r :
  extract_email_data lib self msg = Some r ->
  is_from_me r = true -> body r = "".
Proof.
  unfold extract_email_data.
  destruct msg as [m|]; [|discriminate].
  destruct (msg_headers m); [discriminate|].
  destruct (gmail_account_username self); [|discriminate].
  destruct (msg_get m "From" ""); [|discriminate].
  destruct (owner_in_from _ _); intros [= <-]; simpl; [reflexivity|discriminate].
Qed.

(** C9. When the owner's address occurs, case folded, in the [From] header,
    the extracted record is marked as the owner's and its body is empty; the
    record is then a function of the headers alone, so no payload and no HTML
    converter takes part in it. *)
Theorem owner_message_short_circuit lib self username m r :
  gmail_account_username self = Some username ->
  extract_email_data lib self (Some m) = Some r ->
  owner_in_from username (from r) = true ->
  is_from_me r = true /\ body r = "" /\
  forall lib' m', msg_headers m' = msg_headers m ->
                  extract_email_data lib' self (Some m') = Some r.
Proof.
  intros Hu He Ho.
  pose proof (extract_from_header _ _ _ _ He) as Hf.
  unfold extract_email_data in He |- *.
  destruct (msg_headers m) as [|h hs] eqn:Hh; [discriminate|].
  rewrite Hu, Hf in He. cbn [from] in He. rewrite Ho in He.
  injection He as <-. cbn [is_from_me body]. repeat split.
  intros lib' m' Hm'. rewrite Hm', Hu.
  unfold msg_get in Hf |- *. rewrite Hm'. rewrite Hh in Hf |- *.
  rewrite Hf. cbn [from]. cbn [from] in Ho. rewrite Ho. reflexivity.
Qed.

Lemma owner_message_short_circuit_witness :
  let r := {| subject := HStr "note to self"; from := "Me <ME@Gmail.com>";
              to := HStr ""; date := HStr ""; body := ""; is_from_me := true |} in
  is_from_me r = true /\ body r = "" /\
  forall lib' m', msg_headers m' = msg_headers owner_mail ->
                  extract_email_data lib' me (Some m') = Some r.
Proof.
  apply (owner_message_short_circuit no_libraries me "me@gmail.com" owner_mail);
    reflexivity.
Defined.

(** ** The fetch loop *)

Lemma truthy_str_nonempty (s : string) : truthy_str s = true <-> s <> "".
Proof.
  destruct s; simpl; split; intros H; try discriminate; try reflexivity.
  now elim H.
Qed.

Lemma relevant_some (d : EmailData) :
  relevant (Some d) = true <-> is_from_me d = false /\ body d <> "".
Proof.
  unfold relevant. rewrite andb_true_iff, negb_true_iff, truthy_str_nonempty.
  reflexivity.
Qed.

(** Every body that extraction produces is already trimmed. *)
Lemma extracted_body_trimmed lib self msg r :
  extract_email_data lib self msg = Some r -> strip (body r) = body r.
Proof.
  unfold extract_email_data.
  destruct msg as [m|]; [|discriminate].
  destruct (msg_headers m); [discriminate|].
  destruct (gmail_account_username self); [|discriminate].
  destruct (msg_get m "From" ""); [|discriminate].
  destruct (owner_in_from _ _); intros [= <-]; simpl.
  - reflexivity.
  - apply strip_idempotent.
Qed.

Lemma fetch_messages_In lib self mail ids r :
  In r (fetch_messages lib self mail ids) <->
  exists id, In id ids /\
             extract_email_data lib self (fetch_email_by_id mail id) = Some r /\
             relevant (Some r) = true.
Proof.
  induction ids as [|id ids IH]; cbn [fetch_messages In].
  - split; [tauto | intros (id & [] & _)].
  - destruct (extract_email_data lib self (fetch_email_by_id mail id))
      as [d|] eqn:E.
    + destruct (relevant (Some d)) eqn:R; cbn [In]; rewrite IH.
      * split.
        -- intros [<- | (id' & Hin & He & Hr)].
           ++ exists id. auto.
           ++ exists id'. auto.
        -- intros (id' & [<- | Hin] & He & Hr).
           ++ left. congruence.
           ++ right. exists id'. auto.
      * split.
        -- intros (id' & Hin & He & Hr). exists id'. auto.
        -- intros (id' & [<- | Hin] & He & Hr).
           ++ congruence.
           ++ exists id'. auto.
    + rewrite IH. split.
      * intros (id' & Hin & He & Hr). exists id'. auto.
      * intros (id' & [<- | Hin] & He & Hr); [congruence|].
        exists id'. auto.
Qed.

Lemma fetch_messages_length lib self mail ids :
  List.length (fetch_messages lib self mail ids) =
  List.length
    (filter (fun id => relevant (extract_email_data lib self
                                   (fetch_email_by_id mail id))) ids).
Proof.
  induction ids as [|id ids IH]; simpl; [reflexivity|].
  destruct (extract_email_data lib self (fetch_email_by_id mail id)) as [d|];
    [destruct (relevant (Some d))|]; simpl; now rewrite IH.
Qed.

(** C7. The list the fetch loop returns holds exactly the records that
    extraction produced for some listed identifier, that are not the owner's
    and whose body is not empty; these bodies are trimmed, so they are not
    empty after trimming either. A missing record, an owner's record and a
    record whose text is blank add nothing to the list. With one message from
    the owner and one external message with text, the list has one entry. *)
Theorem fetch_messages_filter lib self mail ids :
  (forall r, In r (fetch_messages lib self mail ids) <->
             exists id, In id ids /\
               extract_email_data lib self (fetch_email_by_id mail id) = Some r /\
               is_from_me r = false /\ body r <> "") /\
  (forall r, In r (fetch_messages lib self mail ids) ->
             strip (body r) = body r /\ strip (body r) <> "") /\
  List.length (fetch_messages lib self mail ids) =
    List.length
      (filter (fun id => relevant (extract_email_data lib self
                                     (fetch_email_by_id mail id))) ids) /\
  relevant None = false /\
  (forall d, is_from_me d = true -> relevant (Some d) = false) /\
  (forall m d, extract_email_data lib self (Some m) = Some d ->
               all_space (body_text lib m) = true ->
               relevant (Some d) = false) /\
  List.length (fetch_messages no_libraries me two_message_inbox ["1"; "2"]) = 1.
Proof.
  repeat split.
  - intros H. apply fetch_messages_In in H as (id & Hin & He & Hr).
    apply relevant_some in Hr. exists id. tauto.
  - intros (id & Hin & He & Hf & Hb). apply fetch_messages_In.
    exists id. repeat split; auto. apply relevant_some. tauto.
  - apply fetch_messages_In in H as (id & _ & He & _).
    eapply extracted_body_trimmed; eauto.
  - apply fetch_messages_In in H as (id & _ & He & Hr).
    rewrite (extracted_body_trimmed _ _ _ _ He).
    apply relevant_some in Hr. tauto.
  - apply fetch_messages_length.
  - intros d Hd. unfold relevant. now rewrite Hd.
  - intros m d He Hblank. unfold extract_email_data in He.
    destruct (msg_headers m); [discriminate|].
    destruct (gmail_account_username self); [|discriminate].
    destruct (msg_get m "From" ""); [|discriminate].
    destruct (owner_in_from _ _); injection He as <-; simpl; [reflexivity|].
    now rewrite (strip_blank _ Hblank).
Qed.

(** ** The brace span *)

Lemma code_inj (c : ascii) (n : nat) :
  (code c =? n) = true -> c = ascii_of_nat n.
Proof.
  intros H. apply Nat.eqb_eq in H. subst n. unfold code.
  symmetry. apply ascii_nat_embedding.
Qed.

Lemma has_char_app (n : nat) (a b : string) :
  has_char n (a ++ b) = has_char n a || has_char n b.
Proof.
  induction a as [|c a IH]; simpl; [reflexivity|].
  now rewrite IH, orb_assoc.
Qed.

Lemma from_first_some (n : nat) (s t : string) :
  from_first n s = Some t ->
  exists pre r, s = pre ++ String (ascii_of_nat n) r /\
                t = String (ascii_of_nat n) r /\ has_char n pre = false.
Proof.
  induction s as [|c r IH]; simpl; [discriminate|].
  destruct (code c =? n) eqn:E.
  - intros [= <-]. exists "", r. rewrite (code_inj _ _ E). auto.
  - intros H. destruct (IH H) as (pre & r' & -> & -> & Hp).
    exists (String c pre), r'. simpl. now rewrite E, Hp.
Qed.

Lemma from_first_none (n : nat) (s : string) :
  from_first n s = None -> has_char n s = false.
Proof.
  induction s as [|c r IH]; simpl; [reflexivity|].
  destruct (code c =? n); [discriminate|]. exact IH.
Qed.

Lemma upto_last_none (n : nat) (s : string) :
  upto_last n s = None -> has_char n s = false.
Proof.
  induction s as [|c r IH]; simpl; [reflexivity|].
  destruct (upto_last n r); [discriminate|].
  destruct (code c =? n); [discriminate|]. intros _. now apply IH.
Qed.

Lemma upto_last_some (n : nat) (s p : string) :
  upto_last n s = Some p ->
  exists q post, p = q ++ String (ascii_of_nat n) "" /\
                 s = p ++ post /\ has_char n post = false.
Proof.
  revert p. induction s as [|c r IH]; simpl; [discriminate|].
  intros p. destruct (upto_last n r) as [p'|] eqn:E.
  - intros [= <-]. destruct (IH p' eq_refl) as (q & post & -> & -> & Hp).
    exists (String c q), post. auto.
  - destruct (code c =? n) eqn:Hc; [|discriminate].
    intros [= <-]. exists "", r. rewrite (code_inj _ _ Hc).
    split; [reflexivity|]. split; [reflexivity|].
    now apply upto_last_none.
Qed.

Lemma app_string_assoc (a b c : string) : (a ++ b) ++ c = a ++ (b ++ c).
Proof.
  induction a as [|x a IH]; simpl; [reflexivity|]. now rewrite IH.
Qed.

(** A match of the pattern runs from the first opening brace of the text to
    its last closing brace. *)
Lemma brace_span_some (text span : string) :
  brace_span text = Some span ->
  exists pre mid post,
    text = pre ++ span ++ post /\ span = "{" ++ mid ++ "}" /\
    has_char 123 pre = false /\ has_char 125 post = false.
Proof.
  unfold brace_span. destruct (from_first 123 text) as [t|] eqn:F; [|discriminate].
  intros U. destruct (from_first_some _ _ _ F) as (pre & r & -> & -> & Hpre).
  destruct (upto_last_some _ _ _ U) as (q & post & -> & Hs & Hpost).
  destruct q as [|c q].
  - simpl in Hs. discriminate.
  - simpl in Hs. injection Hs as <- Hr.
    exists pre, q, post. subst r. auto.
Qed.

Lemma app_split_at (pre0 t pre : string) (c : ascii) (rest : string) :
  pre0 ++ t = pre ++ String c rest ->
  has_char (code c) pre0 = false ->
  exists d, t = d ++ String c rest.
Proof.
  revert pre. induction pre0 as [|x pre0 IH]; simpl; intros pre H Hno.
  - now exists pre.
  - apply orb_false_iff in Hno as [Hx Hno].
    destruct pre as [|y pre]; simpl in H.
    + injection H as -> _. now rewrite Nat.eqb_refl in Hx.
    + injection H as _ H. now apply (IH pre).
Qed.

(** There is no match exactly when no opening brace has a closing brace
    after it. *)
Lemma brace_span_none (text : string) :
  brace_span text = None ->
  forall pre mid post, text <> pre ++ "{" ++ mid ++ "}" ++ post.
Proof.
  unfold brace_span. intros H pre mid post E.
  destruct (from_first 123 text) as [t|] eqn:F.
  - apply upto_last_none in H.
    destruct (from_first_some _ _ _ F) as (pre0 & r & E0 & -> & Hpre).
    rewrite E0 in E.
    destruct (app_split_at pre0 _ pre "{"%char (mid ++ "}" ++ post) E Hpre)
      as (d & Hd).
    rewrite Hd in H. rewrite has_char_app in H. simpl in H.
    rewrite has_char_app in H. simpl in H.
    rewrite !orb_true_r in H. discriminate.
  - apply from_first_none in F. rewrite E in F.
    rewrite has_char_app in F. simpl in F. rewrite orb_true_r in F.
    discriminate.
Qed.

(** ** Reply parsing *)

(** A span that [json.loads] does not parse and that does not give the fixed
    fallback. The object of the reply holds an integer literal of 4301
    digits; [json.loads] raises [ValueError] on it, which is not a
    [JSONDecodeError], so the handler of the inner [try] does not apply and
    the outer handler builds the result: the summary is the error text, cut
    to 100 characters, behind a fixed prefix. *)
Lemma unparsed_span_gives_error_summary :
  let result :=
    categorize_and_summarize_email no_libraries (replying long_integer_reply)
                                   0 lunch_mail in
  brace_span long_integer_reply = Some long_integer_json /\
  json_loads no_libraries long_integer_json
    = LoadsRaised (Json.digit_limit_error 4301) /\
  result <> fallback_analysis /\
  subscript result "summary"
    = Ok (PStr ("Error analyzing email: Exceeds the limit (4300 digits) for "
                ++ "integer string conversion: value has 4301 digits; "
                ++ "use sys.set_in")) /\
  subscript result "summary"
    <> Ok (PStr "Email content could not be properly analyzed").
Proof.
  cbv zeta. split; [vm_compute; reflexivity|].
  split; [vm_compute; reflexivity|].
  split; [intros H; vm_compute in H; discriminate H|].
  split; [vm_compute; reflexivity|].
  intros H; vm_compute in H; discriminate H.
Qed.

(** C5, as the code has it. When the service returns a text, the result of
    the analysis is decided by the span from the first opening brace of the
    text to its last closing brace: if [json.loads] accepts the span its
    value is returned as it is; if it reports a decoding error, or if the
    text has no such span, the fixed fallback is returned, whose categories
    are the single label PERSONAL, whose summary is the fixed sentence and
    whose importance is 5; if it raises another exception, the result has the
    same categories and importance, and its summary is a fixed prefix
    followed by the first 100 characters of the error text. *)
Theorem reply_parsing lib self calls email_data text :
  perplexity_client self calls (analysis_request email_data)
    = Reply (Some text) ->
  let result := categorize_and_summarize_email lib self calls email_data in
  (forall span, brace_span text = Some span ->
     (exists pre mid post,
         text = pre ++ span ++ post /\ span = "{" ++ mid ++ "}" /\
         has_char 123 pre = false /\ has_char 125 post = false) /\
     (forall v, json_loads lib span = Loaded v -> result = v) /\
     (json_loads lib span = JSONDecodeError -> result = fallback_analysis) /\
     (forall e, json_loads lib span = LoadsRaised e ->
        result
        = PDict [ ("categories", PList [PStr "PERSONAL"]);
                  ("summary",
                   PStr ("Error analyzing email: " ++ String.substring 0 100 e));
                  ("importance", PInt 5) ])) /\
  (brace_span text = None ->
     (forall pre mid post, text <> pre ++ "{" ++ mid ++ "}" ++ post) /\
     result = fallback_analysis) /\
  subscript fallback_analysis "categories" = Ok (PList [PStr "PERSONAL"]) /\
  subscript fallback_analysis "summary"
    = Ok (PStr "Email content could not be properly analyzed") /\
  subscript fallback_analysis "importance" = Ok (PInt 5).
Proof.
  intros Hreply result. subst result.
  unfold categorize_and_summarize_email. rewrite Hreply. unfold parse_reply.
  split; [|split; [|repeat split]].
  - intros span Hspan. rewrite Hspan. split; [|split; [|split]].
    + now apply brace_span_some.
    + now intros v ->.
    + now intros ->.
    + now intros e ->.
  - intros Hnone. rewrite Hnone. split; [|reflexivity].
    now apply brace_span_none.
Qed.

(** The second end-to-end scenario of the specification, through C5. *)
Lemma reply_parsing_witness :
  categorize_and_summarize_email no_libraries (replying scenario_reply) 0
                                 lunch_mail
  = PDict [ ("categories", PList [PStr "WORK"; PStr "FINANCE"]);
            ("summary", PStr "S");
            ("importance", PInt 7) ].
Proof.
  destruct (reply_parsing no_libraries (replying scenario_reply) 0 lunch_mail
                          scenario_reply eq_refl) as [Hspan _].
  destruct (Hspan scenario_json eq_refl) as (_ & Hloaded & _).
  apply Hloaded. reflexivity.
Defined.

(** A request that fails gives the fallback of the outer handler. *)
Lemma failed_request_fallback lib self calls email_data e :
  perplexity_client self calls (analysis_request email_data) = ApiRaised e ->
  categorize_and_summarize_email lib self calls email_data = error_analysis e.
Proof.
  intros H. unfold categorize_and_summarize_email. now rewrite H.
Qed.

(** ** The batch loop *)

Lemma analysis_cases lib self calls email_data :
  let analysis := categorize_and_summarize_email lib self calls email_data in
  is_fallback analysis \/ is_parsed lib self calls email_data analysis.
Proof.
  unfold categorize_and_summarize_email, parse_reply, is_fallback, is_parsed.
  destruct (perplexity_client self calls (analysis_request email_data))
    as [[text|]|e] eqn:R.
  - destruct (brace_span text) as [span|] eqn:B.
    + destruct (json_loads lib span) as [v| |e] eqn:L.
      * right. now exists text, span.
      * left. now left.
      * left. right. now exists e.
    + left. now left.
  - left. right. eauto.
  - left. right. eauto.
Qed.

(** The value read from the reply is the analysis. *)
Lemma parsed_analysis lib self calls email_data v :
  is_parsed lib self calls email_data v ->
  categorize_and_summarize_email lib self calls email_data = v.
Proof.
  intros (text & span & R & B & L).
  unfold categorize_and_summarize_email, parse_reply. now rewrite R, B, L.
Qed.

Lemma header_prefix_returns (n : nat) (h : header_value) :
  returns (header_prefix n h) = is_text h.
Proof. now destruct h. Qed.

Lemma process_emails_from_nth lib self emails :
  forall i out, process_emails_from lib self i emails = Ok out ->
  List.length out = List.length emails /\
  forall k e p, nth_error emails k = Some e -> nth_error out k = Some p ->
    let analysis := categorize_and_summarize_email lib self (i + k) e in
    message p = e /\
    subscript analysis "categories" = Ok (categories p) /\
    subscript analysis "summary" = Ok (summary p) /\
    subscript analysis "importance" = Ok (importance p).
Proof.
  induction emails as [|e0 emails IH]; intros i out H.
  - injection H as <-. split; [reflexivity|].
    intros [|k] e p He; discriminate.
  - cbn [process_emails_from] in H.
    destruct (header_prefix 50 (subject e0)) as [shown|]; [|discriminate].
    cbn [bind] in H.
    destruct (subscript _ "categories") as [c|] eqn:Hc; [|discriminate].
    destruct (subscript _ "summary") as [s|] eqn:Hs; [|discriminate].
    destruct (subscript _ "importance") as [imp|] eqn:Hi; [|discriminate].
    cbn [bind] in H.
    destruct (process_emails_from lib self (S i) emails) as [out'|] eqn:Hrest;
      [|discriminate].
    injection H as <-. destruct (IH _ _ Hrest) as [Hlen Hnth].
    split; [simpl; now rewrite Hlen|].
    intros [|k] e p He Hp; simpl in He, Hp.
    + injection He as <-. injection Hp as <-. rewrite Nat.add_0_r. simpl. auto.
    + replace (i + S k) with (S i + k) by lia. now apply Hnth.
Qed.

(** The loop returns only when every subject is a [str]. *)
Lemma process_emails_from_subjects lib self emails :
  forall i out, process_emails_from lib self i emails = Ok out ->
  forall k e, nth_error emails k = Some e -> is_text (subject e) = true.
Proof.
  induction emails as [|e0 emails IH]; intros i out H [|k] e He;
    try discriminate.
  - injection He as <-. cbn [process_emails_from] in H.
    rewrite <- (header_prefix_returns 50).
    now destruct (header_prefix 50 (subject e0)).
  - cbn [process_emails_from] in H.
    destruct (header_prefix 50 (subject e0)) as [shown|]; [|discriminate].
    cbn [bind] in H.
    destruct (subscript _ "categories") as [c|]; [|discriminate].
    destruct (subscript _ "summary") as [s|]; [|discriminate].
    destruct (subscript _ "importance") as [imp|]; [|discriminate].
    cbn [bind] in H.
    destruct (process_emails_from lib self (S i) emails) as [out'|] eqn:Hrest;
      [|discriminate].
    exact (IH _ _ Hrest k e He).
Qed.

Lemma fallback_fields analysis :
  is_fallback analysis ->
  subscript analysis "categories" = Ok (PList [PStr "PERSONAL"]) /\
  subscript analysis "importance" = Ok (PInt 5).
Proof.
  intros [-> | [e ->]]; split; reflexivity.
Qed.

Lemma fallback_summary analysis :
  is_fallback analysis ->
  exists s, subscript analysis "summary" = Ok (PStr s).
Proof.
  intros [-> | [e ->]]; eexists; reflexivity.
Qed.

Lemma personal_is_a_category : In "PERSONAL" analyzer_categories.
Proof.
  unfold analyzer_categories. simpl. tauto.
Qed.

Lemma analyzer_categories_count : List.length analyzer_categories = 22.
Proof. reflexivity. Qed.

(** The values of a parsed reply are copied without a check: an importance
    of 99 with four categories, one of them unknown, and an importance of 0
    with no category, both reach the processed message. *)
Lemma analysis_values_unchecked :
  (exists p,
      process_all_emails no_libraries (replying out_of_range_json) [lunch_mail]
        = Ok [p] /\
      importance p = PInt 99 /\
      categories p = PList [PStr "URGENT"; PStr "WORK"; PStr "NEWS"; PStr "FOOD"] /\
      ~ spec_analyzed_invariant p) /\
  (exists p,
      process_all_emails no_libraries (replying no_category_json) [lunch_mail]
        = Ok [p] /\
      importance p = PInt 0 /\ categories p = PList [] /\
      ~ spec_analyzed_invariant p).
Proof.
  split.
  - eexists. split; [reflexivity|]. split; [reflexivity|]. split; [reflexivity|].
    intros [(z & Hz & Hr) _]. simpl in Hz. injection Hz as <-. lia.
  - eexists. split; [reflexivity|]. split; [reflexivity|]. split; [reflexivity|].
    intros [(z & Hz & Hr) _]. simpl in Hz. injection Hz as <-. lia.
Qed.

(** C1, as the code has it. The batch loop returns one processed message per
    input message, in order. When the reply for a message has a brace span
    that [json.loads] accepts, the categories, the summary and the importance
    of the processed message are the values found under these keys in the
    object read from the span, whatever they are. When the reply has no such
    span (or there is no reply), the processed message has importance 5, the
    single category PERSONAL and a text as summary, and so satisfies the
    invariant of the specification. *)
Theorem analyzed_message_values lib self emails out :
  process_all_emails lib self emails = Ok out ->
  List.length out = List.length emails /\
  forall k e p, nth_error emails k = Some e -> nth_error out k = Some p ->
    message p = e /\
    (forall v, is_parsed lib self k e v ->
       subscript v "categories" = Ok (categories p) /\
       subscript v "summary" = Ok (summary p) /\
       subscript v "importance" = Ok (importance p)) /\
    ((forall v, ~ is_parsed lib self k e v) ->
       importance p = PInt 5 /\
       categories p = PList [PStr "PERSONAL"] /\
       (exists s, summary p = PStr s) /\
       spec_analyzed_invariant p).
Proof.
  intros H. apply process_emails_from_nth in H as [Hlen Hnth].
  split; [exact Hlen|].
  intros k e p He Hp. destruct (Hnth k e p He Hp) as (Hm & Hc & Hs & Hi).
  simpl in Hc, Hs, Hi. split; [exact Hm|]. split.
  - intros v Hv. rewrite (parsed_analysis _ _ _ _ _ Hv) in Hc, Hs, Hi. auto.
  - intros Hno. destruct (analysis_cases lib self k e) as [Hf | Hparsed];
      [|now elim (Hno _ Hparsed)].
    destruct (fallback_summary _ Hf) as [s Fs].
    apply fallback_fields in Hf as [Fc Fi].
    rewrite Fc in Hc. rewrite Fi in Hi. rewrite Fs in Hs.
    injection Hc as Hc. injection Hi as Hi. injection Hs as Hs.
    unfold spec_analyzed_invariant. rewrite <- Hc, <- Hi, <- Hs.
    repeat split.
    + now exists s.
    + exists 5%Z. split; [reflexivity|lia].
    + exists ["PERSONAL"]. split; [reflexivity|]. split; [simpl; lia|].
      constructor; [apply personal_is_a_category|constructor].
Qed.

(** C1 on the second end-to-end scenario: the values of the reply reach the
    processed message. *)
Lemma analyzed_message_values_witness :
  let out := [ {| message := lunch_mail;
                  categories := PList [PStr "WORK"; PStr "FINANCE"];
                  summary := PStr "S";
                  importance := PInt 7 |} ] in
  List.length out = List.length [lunch_mail] /\
  forall k e p, nth_error [lunch_mail] k = Some e -> nth_error out k = Some p ->
    message p = e /\
    (forall v, is_parsed no_libraries (replying scenario_reply) k e v ->
       subscript v "categories" = Ok (categories p) /\
       subscript v "summary" = Ok (summary p) /\
       subscript v "importance" = Ok (importance p)) /\
    ((forall v, ~ is_parsed no_libraries (replying scenario_reply) k e v) ->
       importance p = PInt 5 /\
       categories p = PList [PStr "PERSONAL"] /\
       (exists s, summary p = PStr s) /\
       spec_analyzed_invariant p).
Proof.
  apply (analyzed_message_values no_libraries (replying scenario_reply)
                                 [lunch_mail]).
  reflexivity.
Defined.

Lemma fallback_has_keys analysis : is_fallback analysis -> has_keys analysis.
Proof.
  intros [-> | [e ->]]; unfold has_keys; simpl; eauto 7.
Qed.

Lemma process_emails_from_returns lib self emails :
  forall i,
    (forall k e, nth_error emails k = Some e ->
                 is_text (subject e) = true /\
                 has_keys (categorize_and_summarize_email lib self (i + k) e)) ->
    exists out, process_emails_from lib self i emails = Ok out.
Proof.
  induction emails as [|e0 emails IH]; intros i H.
  - now exists [].
  - destruct (H 0 e0 eq_refl) as (Ht & c & s & imp & Hc & Hs & Hi).
    rewrite Nat.add_0_r in Hc, Hs, Hi.
    destruct (IH (S i)) as [out' Hout].
    { intros k e He. replace (S i + k) with (i + S k) by lia.
      now apply (H (S k)). }
    eexists. cbn [process_emails_from].
    destruct (subject e0) as [text|]; [|discriminate Ht].
    cbn [header_prefix bind]. rewrite Hc, Hs, Hi. cbn [bind].
    rewrite Hout. reflexivity.
Qed.

(** The failures that the handlers of [categorize_and_summarize_email] cover
    (a failed request, a reply without a brace span, a span that does not
    decode) are not fatal: when every message of the batch meets one of them,
    and every subject is a [str], the loop returns, and keeps every
    message. *)
Lemma handled_failures_keep_messages lib self emails :
  (forall k e, nth_error emails k = Some e ->
               is_text (subject e) = true /\
               is_fallback (categorize_and_summarize_email lib self k e)) ->
  exists out, process_all_emails lib self emails = Ok out /\
              map message out = emails.
Proof.
  intros H. destruct (process_emails_from_returns lib self emails 0) as [out Hout].
  { intros k e He. destruct (H k e He) as [Ht Hf].
    split; [exact Ht|]. now apply fallback_has_keys. }
  exists out. split; [exact Hout|].
  destruct (process_emails_from_nth _ _ _ _ _ Hout) as [Hlen Hnth].
  apply nth_error_ext. intros k. rewrite nth_error_map.
  destruct (nth_error out k) as [p|] eqn:Hp.
  - destruct (nth_error emails k) as [e|] eqn:He.
    + simpl. f_equal. now apply (Hnth k e p He Hp).
    + apply nth_error_None in He. assert (k < List.length out)
        by (apply nth_error_Some; congruence). lia.
  - simpl. symmetry. apply nth_error_None. apply nth_error_None in Hp. lia.
Qed.

(** C2, where the code departs from it. A reply whose brace span is a
    well-formed object without one of the three keys is returned by
    [categorize_and_summarize_email] as it is, and the loop then raises
    [KeyError] when it reads the key: the message is not kept, and neither
    are the messages processed before it. *)
Theorem missing_key_stops_batch :
  categorize_and_summarize_email no_libraries (replying "{}") 0 lunch_mail
    = PDict [] /\
  process_all_emails no_libraries (replying "{}") [lunch_mail]
    = Raise (KeyError "categories") /\
  process_all_emails no_libraries (replying no_summary_json) [lunch_mail]
    = Raise (KeyError "summary") /\
  process_all_emails no_libraries (replying_then scenario_reply "{}")
                     [lunch_mail; lunch_mail]
    = Raise (KeyError "categories").
Proof.
  repeat split; reflexivity.
Qed.

(** The exception leaves [run], after the clean-up. *)
Example missing_key_ends_run :
  run no_libraries (replying "{}") healthy_server
      (analysis_then_nothing no_libraries (replying "{}"))
  = Some (inr (StepError (KeyError "categories")),
          {| state := LOGOUT;
             calls := [CallSelect; CallSearch; CallFetch "2";
                       CallClose; CallLogout] |}).
Proof. reflexivity. Qed.

(** ** Grouping by category *)

Lemma key_eqb_str (k : pyval) (c : string) :
  key_eqb k (PStr c) = true <-> k = PStr c.
Proof.
  destruct k as [| [|] | z | s | l | d]; simpl; split; intros H;
    try discriminate.
  - apply String.eqb_eq in H. now subst.
  - injection H as ->. apply String.eqb_refl.
Qed.

Lemma str_labels_map (ls : list string) : str_labels (PList (map PStr ls)) = ls.
Proof.
  simpl. induction ls as [|c ls IH]; simpl; [reflexivity|]. now rewrite IH.
Qed.

Lemma as_group_app (g : list ProcessedEmail) (e : ProcessedEmail) :
  as_group (g ++ [e])%list = Some (g ++ [e])%list.
Proof. destruct g; reflexivity. Qed.

Lemma as_group_some (g g' : list ProcessedEmail) :
  as_group g = Some g' -> g' = g /\ g <> [].
Proof. destruct g; simpl; [discriminate|]. intros [= <-]. split; congruence. Qed.

Lemma group_get_append groups c e c' :
  group_get (group_append groups (PStr c) e) (PStr c') =
  if String.eqb c c' then Some (content groups c' ++ [e])%list
  else group_get groups (PStr c').
Proof.
  unfold content. induction groups as [|[k es] rest IH].
  - simpl. now destruct (String.eqb c c').
  - cbn [group_append]. destruct (key_eqb k (PStr c)) eqn:K.
    + apply key_eqb_str in K. subst k. simpl.
      now destruct (String.eqb c c').
    + cbn [group_get]. destruct (key_eqb k (PStr c')) eqn:K'.
      * apply key_eqb_str in K'. subst k. simpl in K.
        now rewrite String.eqb_sym, K.
      * exact IH.
Qed.

Lemma holds_content groups f c : holds groups f -> content groups c = f c.
Proof.
  intros H. unfold content. rewrite (H c). now destruct (f c).
Qed.

Lemma holds_append groups f c e :
  holds groups f ->
  holds (group_append groups (PStr c) e)
        (fun c' => if String.eqb c c' then (f c' ++ [e])%list else f c').
Proof.
  intros H c'. rewrite group_get_append.
  destruct (String.eqb c c').
  - now rewrite (holds_content _ _ _ H), as_group_app.
  - apply H.
Qed.

Lemma holds_ext groups f f' :
  holds groups f -> (forall c, f c = f' c) -> holds groups f'.
Proof.
  intros H E c. rewrite <- E. apply H.
Qed.

Lemma add_to_groups_holds e ls :
  forall groups f,
    holds groups f ->
    exists groups',
      add_to_groups groups e (map PStr ls) = Ok groups' /\
      holds groups'
            (fun c => (f c ++ repeat e (count_occ string_dec ls c))%list).
Proof.
  induction ls as [|c ls IH]; intros groups f H.
  - exists groups. split; [reflexivity|].
    eapply holds_ext; [exact H|]. intros c. simpl. now rewrite app_nil_r.
  - cbn [map add_to_groups hashable].
    destruct (IH _ _ (holds_append groups f c e H)) as (groups' & Hadd & Hh).
    exists groups'. split; [exact Hadd|].
    eapply holds_ext; [exact Hh|]. intros c'. cbn [count_occ].
    destruct (string_dec c c') as [->|Hne].
    + rewrite String.eqb_refl. simpl. now rewrite <- app_assoc.
    + apply String.eqb_neq in Hne. now rewrite Hne.
Qed.

Lemma group_emails_holds processed_emails :
  Forall labelled processed_emails ->
  forall groups f,
    holds groups f ->
    exists groups',
      group_emails groups processed_emails = Ok groups' /\
      holds groups' (fun c => (f c ++ group_of c processed_emails)%list).
Proof.
  induction 1 as [|e rest He Hrest IH]; intros groups f H.
  - exists groups. split; [reflexivity|].
    eapply holds_ext; [exact H|]. intros c. simpl. now rewrite app_nil_r.
  - cbn [group_emails]. rewrite He. cbn [py_iter bind].
    destruct (add_to_groups_holds e (labels e) groups f H)
      as (groups1 & Hadd & H1).
    rewrite Hadd. cbn [bind].
    destruct (IH _ _ H1) as (groups' & Hgo & H').
    exists groups'. split; [exact Hgo|].
    eapply holds_ext; [exact H'|]. intros c.
    unfold group_of. cbn [flat_map]. now rewrite <- app_assoc.
Qed.

(** The groups of a batch whose categories are lists of strings: the loop
    returns, and the group of each label is [group_of]. *)
Lemma category_groups_holds processed_emails :
  Forall labelled processed_emails ->
  exists groups,
    category_groups processed_emails = Ok groups /\
    holds groups (fun c => group_of c processed_emails).
Proof.
  intros H.
  destruct (group_emails_holds processed_emails H [] (fun _ => []))
    as (groups & Hgo & Hh).
  - intros c. reflexivity.
  - exists groups. split; [exact Hgo|exact Hh].
Qed.

Lemma group_get_In groups c g :
  group_get groups (PStr c) = Some g -> In (PStr c, g) groups.
Proof.
  induction groups as [|[k es] rest IH]; simpl; [discriminate|].
  destruct (key_eqb k (PStr c)) eqn:K.
  - apply key_eqb_str in K. subst k. intros [= <-]. now left.
  - intros H. right. now apply IH.
Qed.

Lemma In_group_of c e processed_emails :
  In e (group_of c processed_emails) <->
  In e processed_emails /\ In c (labels e).
Proof.
  unfold group_of. rewrite in_flat_map. split.
  - intros (e' & Hin & Hrep). apply repeat_spec in Hrep as Heq.
    subst e'. split; [exact Hin|].
    unfold occurrences in Hrep.
    destruct (count_occ string_dec (labels e) c) eqn:E; [destruct Hrep|].
    apply (count_occ_In string_dec). lia.
  - intros [Hin Hc]. exists e. split; [exact Hin|].
    apply (count_occ_In string_dec) in Hc. unfold occurrences.
    destruct (count_occ string_dec (labels e) c); [lia|]. now left.
Qed.

Lemma labelled_tagged name tags : labelled (tagged name tags).
Proof.
  unfold labelled, labels. simpl categories. now rewrite str_labels_map.
Qed.

Lemma nodup_length_keys (ls : list string) :
  NoDup (nodup string_dec ls) /\
  forall c, In c (nodup string_dec ls) <-> In c ls.
Proof.
  split; [apply NoDup_nodup | intros c; apply nodup_In].
Qed.

(** C8. In a batch whose categories are lists of strings the grouping loop
    returns, and a message of the batch is in the group of a label exactly
    when it carries the label: with N distinct labels it is in N groups, one
    per label. For the three messages tagged WORK, WORK and FINANCE, FINANCE,
    the WORK group and the FINANCE group have two messages each, and the
    second message is in both. *)
Theorem groups_are_not_a_partition processed_emails :
  Forall labelled processed_emails ->
  (exists groups,
     category_groups processed_emails = Ok groups /\
     forall e, In e processed_emails ->
       exists keys,
         NoDup keys /\
         List.length keys = List.length (nodup string_dec (labels e)) /\
         forall c, In c keys <->
                   exists g, group_get groups (PStr c) = Some g /\ In e g) /\
  category_groups scenario_batch
    = Ok [ (PStr "WORK", [tagged "first" ["WORK"];
                          tagged "second" ["WORK"; "FINANCE"]]);
           (PStr "FINANCE", [tagged "second" ["WORK"; "FINANCE"];
                             tagged "third" ["FINANCE"]]) ].
Proof.
  intros Hl. split; [|reflexivity].
  destruct (category_groups_holds processed_emails Hl) as (groups & Hg & Hh).
  exists groups. split; [exact Hg|].
  intros e He. exists (nodup string_dec (labels e)).
  destruct (nodup_length_keys (labels e)) as [Hnd Hin].
  split; [exact Hnd|]. split; [reflexivity|].
  intros c. rewrite Hin. split.
  - intros Hc. exists (group_of c processed_emails).
    assert (Hmem : In e (group_of c processed_emails))
      by (apply In_group_of; auto).
    rewrite (Hh c). split; [|exact Hmem].
    destruct (group_of c processed_emails); [destruct Hmem|reflexivity].
  - intros (g & Hget & Hmem). rewrite (Hh c) in Hget.
    apply as_group_some in Hget as [-> _].
    now apply In_group_of in Hmem.
Qed.

Lemma groups_are_not_a_partition_witness :
  exists groups,
    category_groups scenario_batch = Ok groups /\
    forall e, In e scenario_batch ->
      exists keys,
        NoDup keys /\
        List.length keys = List.length (nodup string_dec (labels e)) /\
        forall c, In c keys <->
                  exists g, group_get groups (PStr c) = Some g /\ In e g.
Proof.
  apply (groups_are_not_a_partition scenario_batch).
  repeat constructor; apply labelled_tagged.
Defined.

Lemma group_of_app c l1 l2 :
  group_of c (l1 ++ l2)%list = (group_of c l1 ++ group_of c l2)%list.
Proof. unfold group_of. apply flat_map_app. Qed.

(** C10. Grouping follows the occurrences of labels. In a batch whose
    categories are lists of strings the loop returns; for every string that
    occurs among the categories of a message, known label or not, the
    dictionary has an entry under that string, and the entry lists the
    messages of the batch in order, each as many times as the string occurs
    among its categories. A message that carries a label twice is twice in
    the group of the label. *)
Theorem groups_follow_occurrences processed_emails :
  Forall labelled processed_emails ->
  (exists groups,
     category_groups processed_emails = Ok groups /\
     forall before e after c,
       processed_emails = (before ++ e :: after)%list ->
       In c (labels e) ->
       exists g,
         In (PStr c, g) groups /\
         group_get groups (PStr c) = Some g /\
         g = (group_of c before ++
              repeat e (count_occ string_dec (labels e) c) ++
              group_of c after)%list /\
         0 < count_occ string_dec (labels e) c) /\
  category_groups repeated_label_batch
    = Ok [ (PStr "URGENT", [tagged "first" ["URGENT"; "WORK"; "URGENT"];
                            tagged "first" ["URGENT"; "WORK"; "URGENT"];
                            tagged "second" ["URGENT"]]);
           (PStr "WORK", [tagged "first" ["URGENT"; "WORK"; "URGENT"]]) ].
Proof.
  intros Hl. split; [|reflexivity].
  destruct (category_groups_holds processed_emails Hl) as (groups & Hg & Hh).
  exists groups. split; [exact Hg|].
  intros before e after c -> Hc.
  assert (Hpos : 0 < count_occ string_dec (labels e) c)
    by now apply (count_occ_In string_dec).
  exists (group_of c (before ++ e :: after)).
  assert (Hget : group_get groups (PStr c)
                 = Some (group_of c (before ++ e :: after))).
  { rewrite (Hh c).
    assert (Hmem : In e (group_of c (before ++ e :: after))).
    { apply In_group_of. split; [|exact Hc].
      apply in_or_app. right. now left. }
    destruct (group_of c (before ++ e :: after)); [destruct Hmem|reflexivity]. }
  split; [now apply group_get_In|]. split; [exact Hget|]. split; [|exact Hpos].
  rewrite group_of_app. f_equal.
Qed.

Lemma groups_follow_occurrences_witness :
  exists groups,
    category_groups repeated_label_batch = Ok groups /\
    forall before e after c,
      repeated_label_batch = (before ++ e :: after)%list ->
      In c (labels e) ->
      exists g,
        In (PStr c, g) groups /\
        group_get groups (PStr c) = Some g /\
        g = (group_of c before ++
             repeat e (count_occ string_dec (labels e) c) ++
             group_of c after)%list /\
        0 < count_occ string_dec (labels e) c.
Proof.
  apply (groups_follow_occurrences repeated_label_batch).
  repeat constructor; apply labelled_tagged.
Defined.

(** ** Ranking by importance *)

Lemma insert_desc_perm x l : Permutation (insert_desc x l) (x :: l).
Proof.
  induction l as [|y l IH]; simpl; [reflexivity|].
  destruct (key_of x <? key_of y)%Z; [|reflexivity].
  rewrite IH. apply perm_swap.
Qed.

Lemma sorted_desc_perm l : Permutation (sorted_desc l) l.
Proof.
  induction l as [|x l IH]; simpl; [reflexivity|].
  rewrite insert_desc_perm. now constructor.
Qed.

Lemma insert_desc_sorted x l :
  StronglySorted ranks_before l -> StronglySorted ranks_before (insert_desc x l).
Proof.
  induction 1 as [|y l Hs IH Hy]; simpl.
  - repeat constructor.
  - destruct (key_of x <? key_of y)%Z eqn:E.
    + constructor; [exact IH|].
      apply Forall_forall. intros z Hz.
      apply (Permutation_in _ (insert_desc_perm x l)) in Hz.
      destruct Hz as [<- | Hz].
      * unfold ranks_before. apply Z.ltb_lt in E. lia.
      * rewrite Forall_forall in Hy. now apply Hy.
    + apply Z.ltb_ge in E. constructor; [now constructor|].
      constructor; [exact E|].
      rewrite Forall_forall in Hy |- *. intros z Hz.
      specialize (Hy z Hz). unfold ranks_before in *. lia.
Qed.

Lemma sorted_desc_sorted l : StronglySorted ranks_before (sorted_desc l).
Proof.
  induction l as [|x l IH]; simpl; [constructor|].
  now apply insert_desc_sorted.
Qed.

(** Inserting leaves the messages of every other key where they are and puts
    the new message in front of those of its own key. *)
Lemma insert_desc_filter k x l :
  filter (has_key k) (insert_desc x l) = filter (has_key k) (x :: l).
Proof.
  induction l as [|y l IH]; [reflexivity|].
  cbn [insert_desc]. destruct (key_of x <? key_of y)%Z eqn:E; [|reflexivity].
  cbn [filter] in IH |- *. rewrite IH.
  apply Z.ltb_lt in E. unfold has_key.
  destruct (key_of x =? k)%Z eqn:Ex; [|reflexivity].
  apply Z.eqb_eq in Ex.
  assert (Ey : (key_of y =? k)%Z = false) by (apply Z.eqb_neq; lia).
  now rewrite Ey.
Qed.

Lemma sorted_desc_stable k l :
  filter (has_key k) (sorted_desc l) = filter (has_key k) l.
Proof.
  induction l as [|x l IH]; [reflexivity|].
  cbn [sorted_desc]. rewrite insert_desc_filter. cbn [filter]. now rewrite IH.
Qed.

Lemma filter_has_key_head x t :
  filter (has_key (key_of x)) (x :: t) = x :: filter (has_key (key_of x)) t.
Proof.
  cbn [filter]. unfold has_key at 1. now rewrite Z.eqb_refl.
Qed.

Lemma head_ranks_first x t y :
  StronglySorted ranks_before (x :: t) -> In y (x :: t) -> ranks_before x y.
Proof.
  intros H [<- | Hy].
  - unfold ranks_before. lia.
  - inversion H as [|? ? _ Hx]; subst. rewrite Forall_forall in Hx. now apply Hx.
Qed.

(** Two descending arrangements in which the messages of each importance
    come in the same order are the same list. *)
Lemma descending_unique s :
  forall s',
    StronglySorted ranks_before s -> StronglySorted ranks_before s' ->
    (forall k, filter (has_key k) s = filter (has_key k) s') ->
    s = s'.
Proof.
  induction s as [|x t IH]; intros s' Hs Hs' Hf.
  - destruct s' as [|y t']; [reflexivity|].
    specialize (Hf (key_of y)). rewrite filter_has_key_head in Hf. discriminate.
  - destruct s' as [|y t'].
    { specialize (Hf (key_of x)). rewrite filter_has_key_head in Hf.
      discriminate. }
    assert (Hx : In x (y :: t')).
    { assert (H : In x (filter (has_key (key_of x)) (y :: t'))).
      { rewrite <- Hf, filter_has_key_head. now left. }
      now apply filter_In in H. }
    assert (Hy : In y (x :: t)).
    { assert (H : In y (filter (has_key (key_of y)) (x :: t))).
      { rewrite Hf, filter_has_key_head. now left. }
      now apply filter_In in H. }
    pose proof (head_ranks_first _ _ _ Hs' Hx) as Hxy.
    pose proof (head_ranks_first _ _ _ Hs Hy) as Hyx.
    unfold ranks_before in Hxy, Hyx.
    assert (Hk : key_of y = key_of x) by lia.
    pose proof (Hf (key_of x)) as Hhead.
    rewrite filter_has_key_head in Hhead. rewrite <- Hk in Hhead at 2.
    rewrite filter_has_key_head in Hhead. injection Hhead as <- Htail.
    f_equal. apply IH.
    + now inversion Hs.
    + now inversion Hs'.
    + intros k. specialize (Hf k). cbn [filter] in Hf.
      destruct (has_key k x); [now injection Hf|exact Hf].
Qed.

(** [sorted_desc] is the stable sort: any list in descending order that
    keeps the batch order among equal importances is its result, whatever
    algorithm built it. *)
Lemma sorted_desc_is_the_stable_sort l s :
  StronglySorted ranks_before s ->
  (forall k, filter (has_key k) s = filter (has_key k) l) ->
  s = sorted_desc l.
Proof.
  intros Hs Hf. apply descending_unique.
  - exact Hs.
  - apply sorted_desc_sorted.
  - intros k. now rewrite sorted_desc_stable.
Qed.

Lemma strongly_sorted_app_inv (l1 l2 : list ProcessedEmail) :
  StronglySorted ranks_before (l1 ++ l2) ->
  StronglySorted ranks_before l1 /\
  forall a b, In a l1 -> In b l2 -> ranks_before a b.
Proof.
  induction l1 as [|x l1 IH]; simpl; intros H.
  - split; [constructor | intros a b []].
  - inversion H as [|? ? Hs Hx]; subst. destruct (IH Hs) as [H1 H2].
    split.
    + constructor; [exact H1|]. apply Forall_forall. intros z Hz.
      rewrite Forall_forall in Hx. apply Hx. apply in_or_app. now left.
    + intros a b [<- | Ha] Hb.
      * rewrite Forall_forall in Hx. apply Hx. apply in_or_app. now right.
      * now apply H2.
Qed.

Lemma slice_to_nonneg {A} (l : list A) (n : Z) :
  (0 <= n)%Z -> slice_to l n = firstn (Z.to_nat n) l.
Proof.
  intros H. unfold slice_to.
  destruct (n <? 0)%Z eqn:E; [apply Z.ltb_lt in E; lia | reflexivity].
Qed.

Lemma key_of_int (e : ProcessedEmail) (z : Z) :
  importance e = PInt z -> key_of e = z.
Proof. intros H. unfold key_of, rank_key. now rewrite H. Qed.

Lemma int_key_int (e : ProcessedEmail) (z : Z) :
  importance e = PInt z -> int_key e = true.
Proof. intros H. unfold int_key, rank_key. now rewrite H. Qed.

Lemma has_importance_key (z : Z) (e : ProcessedEmail) :
  (exists z', importance e = PInt z') -> has_importance z e = has_key z e.
Proof.
  intros [z' H]. unfold has_importance, has_key.
  now rewrite (key_of_int e z' H), H.
Qed.

Lemma filter_has_importance (z : Z) (l : list ProcessedEmail) :
  Forall (fun e => exists z', importance e = PInt z') l ->
  filter (has_importance z) l = filter (has_key z) l.
Proof.
  intros H. apply filter_ext_in. intros e He.
  rewrite Forall_forall in H. now apply has_importance_key, H.
Qed.

Lemma strongly_sorted_nth {A} (R : A -> A -> Prop) (l : list A) :
  StronglySorted R l ->
  forall i j a b, i < j -> nth_error l i = Some a -> nth_error l j = Some b ->
                  R a b.
Proof.
  induction 1 as [|x l Hs IH Hx]; intros i j a b Hij Ha Hb.
  - now destruct i.
  - destruct j as [|j]; [lia|]. cbn [nth_error] in Hb.
    destruct i as [|i]; cbn [nth_error] in Ha.
    + injection Ha as <-. rewrite Forall_forall in Hx.
      apply Hx. now apply nth_error_In in Hb.
    + apply (IH i j); [lia|exact Ha|exact Hb].
Qed.

Lemma slice_to_firstn {A} (l : list A) (n : Z) :
  exists m, slice_to l n = firstn m l.
Proof. unfold slice_to. destruct (n <? 0)%Z; eexists; reflexivity. Qed.

Lemma slice_to_length {A} (l : list A) (n : Z) :
  Z.of_nat (List.length (slice_to l n)) =
  (if (n <? 0)%Z
   then Z.max 0 (Z.of_nat (List.length l) + n)
   else Z.min n (Z.of_nat (List.length l))).
Proof.
  unfold slice_to. destruct (n <? 0)%Z eqn:E; rewrite length_firstn.
  - apply Z.ltb_lt in E. lia.
  - apply Z.ltb_ge in E. lia.
Qed.

(** A negative count is a Python slice bound counted from the end: the
    ranking then drops that many messages from the tail. With a count of -1
    a batch of five gives four messages, which is not the smaller of -1
    and 5. *)
Lemma negative_count_is_not_a_minimum :
  get_top_important_emails rated_batch (-1)
    = Some [ rated "b" 9; rated "e" 9; rated "d" 7; rated "a" 5 ] /\
  forall out,
    get_top_important_emails rated_batch (-1) = Some out ->
    List.length out = 4 /\
    Z.of_nat (List.length out)
    <> Z.min (-1) (Z.of_nat (List.length rated_batch)).
Proof.
  split; [reflexivity|].
  intros out H. vm_compute in H. injection H as <-.
  split; [reflexivity|]. vm_compute. discriminate.
Qed.

(** C6, as the code has it. With integer importances, the ranking returns
    [min(top_n, len)] messages for a count [top_n] that is not negative (10
    when the caller gives none), and the ranking without its last [-top_n]
    messages for a negative one. In both cases a returned message never has
    a smaller importance than one returned after it; the returned messages
    are the head of a rearrangement of the batch whose remaining messages are
    not more important than any returned one; and for each importance value
    the returned messages of that value are the first ones of the batch with
    that value, in batch order. *)
Theorem rank_by_importance processed_emails top_n :
  Forall (fun e => exists z, importance e = PInt z) processed_emails ->
  exists out,
    get_top_important_emails processed_emails top_n = Some out /\
    Z.of_nat (List.length out) =
      (if (top_n <? 0)%Z
       then Z.max 0 (Z.of_nat (List.length processed_emails) + top_n)
       else Z.min top_n (Z.of_nat (List.length processed_emails))) /\
    (forall i j a b za zb,
        i < j -> nth_error out i = Some a -> nth_error out j = Some b ->
        importance a = PInt za -> importance b = PInt zb -> (zb <= za)%Z) /\
    (exists rest,
        Permutation (out ++ rest) processed_emails /\
        forall a b za zb,
          In a out -> In b rest ->
          importance a = PInt za -> importance b = PInt zb -> (zb <= za)%Z) /\
    (forall z, exists later,
        filter (has_importance z) processed_emails
        = (filter (has_importance z) out ++ later)%list).
Proof.
  intros Hint. unfold get_top_important_emails.
  assert (Hall : forallb int_key processed_emails = true).
  { apply forallb_forall. intros e He. rewrite Forall_forall in Hint.
    destruct (Hint e He) as [z Hz]. exact (int_key_int e z Hz). }
  rewrite Hall. set (s := sorted_desc processed_emails).
  assert (Hperm : Permutation s processed_emails) by apply sorted_desc_perm.
  exists (slice_to s top_n). split; [reflexivity|].
  split.
  { rewrite slice_to_length. unfold s.
    now rewrite (Permutation_length (sorted_desc_perm processed_emails)). }
  destruct (slice_to_firstn s top_n) as [n ->].
  assert (Hsplit : (firstn n s ++ skipn n s)%list = s) by apply firstn_skipn.
  assert (Hsorted : StronglySorted ranks_before (firstn n s ++ skipn n s)).
  { rewrite Hsplit. apply sorted_desc_sorted. }
  apply strongly_sorted_app_inv in Hsorted as [Hhead Hcut].
  assert (Hs : Forall (fun e => exists z, importance e = PInt z) s).
  { apply Forall_forall. intros e He. rewrite Forall_forall in Hint.
    apply Hint. now apply (Permutation_in _ Hperm). }
  rewrite <- Hsplit in Hs. apply Forall_app in Hs as [Hs1 Hs2].
  split; [|split].
  - intros i j a b za zb Hij Ha Hb Hza Hzb.
    pose proof (strongly_sorted_nth _ _ Hhead i j a b Hij Ha Hb) as R.
    unfold ranks_before in R.
    now rewrite (key_of_int a za Hza), (key_of_int b zb Hzb) in R.
  - exists (skipn n s). split; [now rewrite Hsplit|].
    intros a b za zb Ha Hb Hza Hzb. pose proof (Hcut a b Ha Hb) as R.
    unfold ranks_before in R.
    now rewrite (key_of_int a za Hza), (key_of_int b zb Hzb) in R.
  - intros z. exists (filter (has_importance z) (skipn n s)).
    rewrite (filter_has_importance z _ Hint).
    rewrite (filter_has_importance z _ Hs1), (filter_has_importance z _ Hs2).
    rewrite <- filter_app, Hsplit. unfold s.
    symmetry. apply sorted_desc_stable.
Qed.

(** C6 on a batch with two ties and a count of three: the two messages of
    importance 9 come first, in batch order, then the one of importance 7. *)
Lemma rank_by_importance_witness :
  exists out,
    get_top_important_emails rated_batch 3 = Some out /\
    out = [ rated "b" 9; rated "e" 9; rated "d" 7 ] /\
    (forall i j a b za zb,
        i < j -> nth_error out i = Some a -> nth_error out j = Some b ->
        importance a = PInt za -> importance b = PInt zb -> (zb <= za)%Z) /\
    (forall z, exists later,
        filter (has_importance z) rated_batch
        = (filter (has_importance z) out ++ later)%list).
Proof.
  destruct (rank_by_importance rated_batch 3) as (out & Hout & _ & Hs & _ & Hf).
  { repeat (constructor; [eexists; reflexivity|]). constructor. }
  exists out. split; [exact Hout|]. split; [|split; [exact Hs|exact Hf]].
  vm_compute in Hout. now injection Hout as <-.
Defined.

(** The ranking on a batch with ties, with the default count and with a
    count of three. *)
Example ranking_keeps_batch_order_on_ties :
  get_top_important_emails rated_batch default_top_n
    = Some [ rated "b" 9; rated "e" 9; rated "d" 7; rated "a" 5; rated "c" 5 ] /\
  get_top_important_emails rated_batch 3
    = Some [ rated "b" 9; rated "e" 9; rated "d" 7 ].
Proof. split; reflexivity. Qed.

(** ** The report *)

(** Two calls on the same three inputs, one second apart, give two different
    texts. *)
Lemma report_depends_on_clock :
  generate_report one_second_earlier [] [] []
  <> generate_report one_second_later [] [] [].
Proof.
  intros H. vm_compute in H. discriminate H.
Qed.

(** C3, as the code has it. The text is a function of the three inputs and
    of the clock reading. Two calls on the same inputs give the same text
    when the clock shows the same second; otherwise the two texts are the
    title, the formatted clock reading, and a common remainder: they differ
    in the generation time and nowhere else. A call that raises does so
    whatever the clock shows. *)
Theorem report_fixed_up_to_generation_time
        now1 now2 processed_emails category_summaries top_emails :
  (strftime now1 = strftime now2 ->
   generate_report now1 processed_emails category_summaries top_emails
   = generate_report now2 processed_emails category_summaries top_emails) /\
  (forall report1,
      generate_report now1 processed_emails category_summaries top_emails
        = Ok report1 ->
      exists remainder,
        report1 = report_title ++ strftime now1 ++ remainder /\
        generate_report now2 processed_emails category_summaries top_emails
          = Ok (report_title ++ strftime now2 ++ remainder)) /\
  (forall e,
      generate_report now1 processed_emails category_summaries top_emails
        = Raise e ->
      generate_report now2 processed_emails category_summaries top_emails
        = Raise e).
Proof.
  unfold generate_report, report_head. repeat split.
  - intros H. now rewrite H.
  - intros report1 H.
    destruct (brief_list 1 top_emails) as [brief|]; [|discriminate].
    destruct (detailed_list 1 top_emails) as [detailed|]; [|discriminate].
    cbn [bind] in H |- *. injection H as <-.
    exists (report_counts processed_emails ++
            category_sections category_summaries ++
            ("## Top 10 Most Important Emails (Brief)" ++ nl ++ nl) ++
            brief ++
            ("## Top 10 Most Important Emails (Detailed Summaries)" ++ nl ++ nl) ++
            detailed).
    split; rewrite !app_string_assoc; reflexivity.
  - intros e H.
    destruct (brief_list 1 top_emails) as [brief|]; [|exact H].
    destruct (detailed_list 1 top_emails) as [detailed|]; [discriminate|exact H].
Qed.

(** ** The mail session *)

Section RunFacts.

Variable lib : Libraries.
Variable self : GmailAnalyzer.
Variable server : ImapServer.
Variable analyse_and_report : list EmailData -> outcome unit.

Lemma get_all_message_ids_state mail :
  state (snd (get_all_message_ids server mail)) =
  match select_reply server with
  | Some status => if String.eqb status "OK" then SELECTED else AUTH
  | None => state mail
  end.
Proof.
  unfold get_all_message_ids, mail_select, mail_search.
  destruct (select_reply server) as [status|]; [|reflexivity].
  destruct (String.eqb status "OK") eqn:E; cbn [negb]; rewrite ?E; cbn [negb];
    [|reflexivity].
  cbn [in_selected called set_state state].
  destruct (search_reply server) as [[st ids]|]; [|reflexivity].
  destruct (negb (String.eqb st "OK")); [reflexivity|].
  destruct ids; reflexivity.
Qed.

Lemma run_body_state mail :
  state (snd (run_body lib self server analyse_and_report mail)) =
  state (snd (get_all_message_ids server mail)).
Proof.
  unfold run_body.
  destruct (get_all_message_ids server mail) as [ids mail'].
  destruct ids as [|i ids]; [reflexivity|].
  destruct (fetch_messages lib self (mail_fetch server mail') (i :: ids));
    reflexivity.
Qed.

(** What the [finally] block adds to the calls, and when. *)
Lemma clean_up_calls pending mail :
  let '(ending, mail') := clean_up server pending mail in
  if close_returns server mail
  then calls mail' = (calls mail ++ [CallClose; CallLogout])%list
  else calls mail' = (calls mail ++ [CallClose])%list /\
       ending = inr ImapError.
Proof.
  unfold clean_up, mail_close, mail_logout, close_returns.
  destruct (in_selected mail && close_completes server).
  - destruct (logout_completes server); [destruct pending|];
      cbn [calls set_state called]; now rewrite <- app_assoc.
  - now cbn [calls set_state called].
Qed.

(** On every path of a run whose mailbox was selected and whose CLOSE
    command the server completes, which includes the paths on which the
    analysis raises, the last two calls on the connection are [close] and
    [logout]. *)
Lemma selected_session_is_released ending mail :
  select_reply server = Some "OK" ->
  close_completes server = true ->
  run lib self server analyse_and_report = Some (ending, mail) ->
  exists earlier, calls mail = (earlier ++ [CallClose; CallLogout])%list.
Proof.
  intros Hsel Hclose. unfold run, connect_to_server.
  destruct (accepts_login server); [|discriminate].
  destruct (run_body lib self server analyse_and_report
                     {| state := AUTH; calls := [] |})
    as [pending mail1] eqn:Hbody.
  intros [= H].
  assert (Hstate : state mail1 = SELECTED).
  { change mail1 with (snd (pending, mail1)). rewrite <- Hbody.
    rewrite run_body_state, get_all_message_ids_state, Hsel. reflexivity. }
  pose proof (clean_up_calls pending mail1) as Hc. rewrite H in Hc.
  unfold close_returns, in_selected in Hc. rewrite Hstate, Hclose in Hc.
  now exists (calls mail1).
Qed.

(** [close] is called on every path that follows a successful open. *)
Lemma close_always_called ending mail :
  run lib self server analyse_and_report = Some (ending, mail) ->
  In CallClose (calls mail).
Proof.
  unfold run. destruct (connect_to_server server) as [mail0|]; [|discriminate].
  destruct (run_body lib self server analyse_and_report mail0)
    as [pending mail1].
  intros [= H]. pose proof (clean_up_calls pending mail1) as Hc.
  rewrite H in Hc.
  destruct (close_returns server mail1); [|destruct Hc as [Hc _]];
    rewrite Hc; apply in_or_app; right; simpl; auto.
Qed.

End RunFacts.

(** C4, where the code departs from it. The [finally] block calls [close]
    and then [logout], so [logout] is reached only when [close] returns. When
    the inbox cannot be selected, [get_all_message_ids] returns no
    identifier, the run takes its first early return, [close] raises because
    no mailbox is selected, and [logout] is not called; the run ends with
    that exception. The same happens when the CLOSE command fails. *)
Theorem logout_skipped_when_close_raises lib self analyse_and_report :
  run lib self inbox_refused analyse_and_report
    = Some (inr ImapError, {| state := AUTH; calls := [CallSelect; CallClose] |})
  /\
  run no_libraries me connection_lost (fun _ => Ok tt)
    = Some (inr ImapError,
            {| state := AUTH;
               calls := [CallSelect; CallSearch; CallFetch "2"; CallClose] |}).
Proof.
  split; reflexivity.
Qed.


(** ** Category summaries *)

(** On a batch whose categories are lists of strings the category summaries
    are built whatever the service does: a failed request is replaced by the
    templated sentence inside the loop. *)
Lemma generate_category_summaries_returns self calls processed_emails :
  Forall labelled processed_emails ->
  exists groups,
    category_groups processed_emails = Ok groups /\
    generate_category_summaries self calls processed_emails
    = Ok (summarize_groups self calls groups []).
Proof.
  intros H. destruct (category_groups_holds _ H) as (groups & Hg & _).
  exists groups. split; [exact Hg|].
  unfold generate_category_summaries. now rewrite Hg.
Qed.

(** The sentence stored for a category whose request fails. *)
Example templated_summary :
  summarize_category me 0 (PStr "WORK") [tagged "first" ["WORK"]; tagged "second" ["WORK"]]
  = PStr "Summary for WORK category with 2 emails.".
Proof. reflexivity. Qed.

(* ################################################################## *)
(** * Further properties of the methods *)
(* ################################################################## *)

(** ** Body extraction *)

Lemma append_empty_r (s : string) : s ++ "" = s.
Proof. induction s as [|c s IH]; simpl; [reflexivity|now rewrite IH]. Qed.

Lemma concat_empty_cons (x : string) (l : list string) :
  String.concat "" (x :: l) = x ++ String.concat "" l.
Proof.
  destruct l as [|y l]; simpl; [now rewrite append_empty_r|reflexivity].
Qed.

Lemma accumulate_concat lib acc ps :
  accumulate lib acc ps = acc ++ String.concat "" (map (part_text lib) ps).
Proof.
  revert acc. induction ps as [|p ps IH]; intros acc.
  - simpl. now rewrite append_empty_r.
  - cbn [accumulate map]. rewrite IH, concat_empty_cons.
    now rewrite app_string_assoc.
Qed.

Lemma part_text_silent lib part :
  is_text_part part = false -> part_text lib part = "".
Proof.
  unfold is_text_part, part_text.
  destruct (decoded_payload part).
  - intros H. apply orb_false_iff in H as [-> ->]. reflexivity.
  - intros _.
    now destruct (String.eqb (get_content_type part) "text/plain"),
                 (String.eqb (get_content_type part) "text/html").
Qed.

Lemma concat_empty_app (l1 l2 : list string) :
  String.concat "" (l1 ++ l2) = String.concat "" l1 ++ String.concat "" l2.
Proof.
  induction l1 as [|x l1 IH]; [reflexivity|].
  cbn [app]. rewrite !concat_empty_cons, IH. now rewrite app_string_assoc.
Qed.

(** What the loop over [walk] collects from a message is the text of its
    tree. *)
Lemma walk_text lib :
  forall m, String.concat "" (map (part_text lib) (walk m)) = tree_text lib m.
Proof.
  fix IH 1. intros [headers content_type text | headers content_type parts].
  - cbn [walk map tree_text]. rewrite concat_empty_cons, append_empty_r.
    unfold part_text, extract_text_from_html.
    cbn [get_content_type decoded_payload].
    destruct text as [t|].
    + destruct (String.eqb content_type "text/plain"); [reflexivity|].
      destruct (String.eqb content_type "text/html"); [|reflexivity].
      destruct (html2text_handle lib t); [reflexivity|].
      now destruct (soup_get_text lib t).
    + now destruct (String.eqb content_type "text/plain"),
                   (String.eqb content_type "text/html").
  - cbn [walk map tree_text]. rewrite concat_empty_cons.
    rewrite (part_text_silent lib (Multipart headers content_type parts) eq_refl).
    cbn [append].
    induction parts as [|p parts IHparts]; [reflexivity|].
    cbn [flat_map map]. rewrite map_app, concat_empty_app, concat_empty_cons.
    now rewrite (IH p), IHparts.
Qed.

(** X1. The body text of a multipart message is the text of its tree: the
    decoded payloads of its [text/plain] leaves and the converted payloads
    of its [text/html] leaves, nested ones included, put together in the
    order of the parts; containers, attachments and leaves that cannot be
    decoded add nothing. The body of the extracted record is that text,
    trimmed. *)
Theorem multipart_body_is_its_text_parts lib headers content_type parts :
  body_text lib (Multipart headers content_type parts)
  = String.concat "" (map (tree_text lib) parts) /\
  forall self r,
    extract_email_data lib self (Some (Multipart headers content_type parts))
      = Some r ->
    is_from_me r = false ->
    body r = strip (String.concat "" (map (tree_text lib) parts)).
Proof.
  assert (B : body_text lib (Multipart headers content_type parts)
              = String.concat "" (map (tree_text lib) parts)).
  { unfold body_text. cbn [is_multipart].
    rewrite accumulate_concat. cbn [append].
    exact (walk_text lib (Multipart headers content_type parts)). }
  split; [exact B|].
  intros self r He Hr. unfold extract_email_data in He. rewrite B in He.
  destruct (msg_headers _); [discriminate|].
  destruct (gmail_account_username self); [|discriminate].
  destruct (msg_get _ "From" ""); [|discriminate].
  destruct (owner_in_from _ _); injection He as <-; [discriminate Hr|].
  reflexivity.
Qed.

(** A message with a plain part, an attachment and a nested HTML part, no
    HTML converter being available. *)
Example nested_parts_body :
  body_text no_libraries
    (Multipart [("From", HStr "Ann <ann@example.org>")] "multipart/mixed"
       [ Single [] "text/plain" (Some "Hello. ");
         Single [] "application/pdf" (Some "%PDF");
         Multipart [] "multipart/alternative"
           [ Single [] "text/html" (Some "<p>Bye</p>");
             Single [] "text/plain" None ] ])
  = "Hello. <p>Bye</p>".
Proof. reflexivity. Qed.

(** ** The owner test *)

Lemma lower_app (a b : string) : lower (a ++ b) = lower a ++ lower b.
Proof. induction a as [|c a IH]; simpl; [reflexivity|now rewrite IH]. Qed.

Lemma prefix_app (x p : string) : String.prefix x (x ++ p) = true.
Proof.
  induction x as [|c x IH]; simpl; [now destruct p|].
  destruct (ascii_dec c c) as [_|N]; [exact IH|now elim N].
Qed.

Lemma contains_prefix (needle hay : string) :
  String.prefix needle hay = true -> contains needle hay = true.
Proof. intros H. destruct hay; cbn [contains]; now rewrite H. Qed.

Lemma contains_app_l (needle pre hay : string) :
  contains needle hay = true -> contains needle (pre ++ hay) = true.
Proof.
  intros H. induction pre as [|c pre IH]; [exact H|].
  cbn [append contains]. rewrite IH.
  now destruct (String.prefix needle (String c (pre ++ hay))).
Qed.

Lemma contains_inside (needle pre post : string) :
  contains needle (pre ++ needle ++ post) = true.
Proof. apply contains_app_l, contains_prefix, prefix_app. Qed.

Lemma contains_empty (hay : string) : contains "" hay = true.
Proof. apply contains_prefix. now destruct hay. Qed.

(** X2. The owner test is a substring test: a message whose [From] header
    is a [str] that has the owner's address anywhere inside it, in any mix of
    capitals (for instance as the tail of a longer address), is marked as the
    owner's, gets no body, and is dropped by the fetch loop. *)
Theorem address_inside_from_marks_owner lib self username m pre addr post :
  gmail_account_username self = Some username ->
  msg_headers m <> [] ->
  msg_get m "From" "" = HStr (pre ++ addr ++ post) ->
  lower addr = lower username ->
  exists r, extract_email_data lib self (Some m) = Some r /\
            from r = pre ++ addr ++ post /\
            is_from_me r = true /\ body r = "" /\
            relevant (Some r) = false.
Proof.
  intros Hu Hh Hf Ha. unfold extract_email_data.
  destruct (msg_headers m) as [|h hs] eqn:E; [now elim Hh|].
  rewrite Hu, Hf. cbn [from]. unfold owner_in_from.
  rewrite !lower_app, Ha, contains_inside.
  eexists. split; [reflexivity|]. repeat split.
Qed.

Lemma address_inside_from_marks_owner_witness :
  exists r, extract_email_data no_libraries me (Some lookalike_mail) = Some r /\
            from r = "Bob <not" ++ "me@gmail.com" ++ ">" /\
            is_from_me r = true /\ body r = "" /\
            relevant (Some r) = false.
Proof.
  apply (address_inside_from_marks_owner no_libraries me "me@gmail.com"
           lookalike_mail "Bob <not" "me@gmail.com" ">");
    [reflexivity | discriminate | reflexivity | reflexivity].
Defined.

(** A sender that is a [Header] object gives no record: the owner test
    raises inside the [try]. *)
Example header_sender_gives_no_record :
  extract_email_data no_libraries me (Some header_from_mail) = None.
Proof. reflexivity. Qed.

(** ** The fetch loop *)

(** X3. Without a usable username the fetch loop returns no message at all:
    when the variable is not set, extraction fails for every message, and
    when it is set to the empty string, the empty string occurs in every
    [From] header, so every message counts as the owner's. *)
Theorem unusable_username_empties_batch lib self mail ids :
  gmail_account_username self = None \/ gmail_account_username self = Some "" ->
  fetch_messages lib self mail ids = [].
Proof.
  intros H. induction ids as [|id ids IH]; [reflexivity|].
  cbn [fetch_messages].
  destruct (extract_email_data lib self (fetch_email_by_id mail id))
    as [d|] eqn:E; [|exact IH].
  assert (R : relevant (Some d) = false).
  { unfold extract_email_data in E.
    destruct (fetch_email_by_id mail id) as [m|]; [|discriminate].
    destruct (msg_headers m); [discriminate|].
    destruct H as [H | H]; rewrite H in E; [discriminate|].
    destruct (msg_get m "From" ""); [|discriminate].
    unfold owner_in_from in E. cbn [lower] in E.
    rewrite contains_empty in E. now injection E as <-. }
  rewrite R. exact IH.
Qed.

Lemma unusable_username_empties_batch_witness :
  fetch_messages no_libraries nameless two_message_inbox ["1"; "2"] = [].
Proof.
  apply (unusable_username_empties_batch no_libraries nameless). now right.
Defined.

Lemma fetch_messages_app lib self mail before after :
  fetch_messages lib self mail (before ++ after) =
  (fetch_messages lib self mail before ++ fetch_messages lib self mail after)%list.
Proof.
  induction before as [|id before IH]; [reflexivity|].
  cbn [app fetch_messages].
  destruct (extract_email_data lib self (fetch_email_by_id mail id)) as [d|];
    [destruct (relevant (Some d))|]; cbn [app]; now rewrite IH.
Qed.

(** X4. The fetch loop treats each identifier on its own: the result for a
    list is the results for its pieces one after the other, so the listing
    order is kept; and an identifier whose fetch raises, answers with a status
    other than OK, or yields nothing that can be extracted, is left out
    without any effect on the others. *)
Theorem fetch_loop_isolates_failures lib self mail before after :
  fetch_messages lib self mail (before ++ after) =
    (fetch_messages lib self mail before ++
     fetch_messages lib self mail after)%list /\
  forall id,
    (mail id = FetchRaises \/
     exists status parsed,
       mail id = FetchReturns status parsed /\
       (String.eqb status "OK" = false \/
        extract_email_data lib self parsed = None)) ->
    fetch_messages lib self mail (before ++ id :: after) =
    fetch_messages lib self mail (before ++ after).
Proof.
  split; [apply fetch_messages_app|].
  intros id H. rewrite !fetch_messages_app. f_equal.
  cbn [fetch_messages].
  assert (E : extract_email_data lib self (fetch_email_by_id mail id) = None).
  { unfold fetch_email_by_id.
    destruct H as [-> | (status & parsed & -> & [-> | Hx])]; [reflexivity..|].
    destruct (String.eqb status "OK"); [exact Hx|reflexivity]. }
  now rewrite E.
Qed.

(** ** Listing *)

(** X5. [get_all_message_ids] issues SELECT once, issues SEARCH only after a
    select that answered OK, and returns identifiers only when both answered
    OK, namely those of the search; in every other case, a raised exception
    included, it returns the empty list. *)
Theorem message_ids_need_select_and_search server mail :
  let result := get_all_message_ids server mail in
  calls (snd result) =
    (calls mail ++
     (if select_ok server then [CallSelect; CallSearch] else [CallSelect]))%list /\
  (fst result <> [] ->
   select_reply server = Some "OK" /\
   search_reply server = Some ("OK", Some (fst result))) /\
  fst result = listed server.
Proof.
  unfold get_all_message_ids, mail_select, mail_search, listed, select_ok.
  destruct (select_reply server) as [status|];
    [destruct (String.eqb status "OK") eqn:E|].
  - apply String.eqb_eq in E. subst status.
    destruct (search_reply server) as [[st [ids|]]|];
      [destruct (String.eqb st "OK") eqn:E';
       [apply String.eqb_eq in E'; subst st|]
      |destruct (String.eqb st "OK") eqn:E'|];
      simpl; rewrite ?E'; simpl; rewrite <- ?app_assoc;
      repeat split; try reflexivity; try (intros H; now elim H);
      try congruence.
  - simpl. rewrite E. simpl.
    repeat split; try reflexivity; try (intros H; now elim H); try congruence.
  - simpl.
    repeat split; try reflexivity; try (intros H; now elim H); try congruence.
Qed.

(** ** The run as a whole *)

Lemma run_body_spec lib self server analyse_and_report :
  run_body lib self server analyse_and_report {| state := AUTH; calls := [] |}
  = (pending_of lib self server analyse_and_report, session_after_fetch server).
Proof.
  unfold run_body, pending_of, relevant_mails, session_after_fetch,
    get_all_message_ids, mail_select, mail_search, listed, select_ok.
  destruct (select_reply server) as [status|];
    [destruct (String.eqb status "OK") eqn:E|].
  - destruct (search_reply server) as [[st [ids|]]|];
      [destruct (String.eqb st "OK") eqn:E'| destruct (String.eqb st "OK") eqn:E' |];
      simpl; rewrite ?E, ?E'; simpl; try reflexivity.
    destruct ids as [|i ids]; [reflexivity|].
    unfold mail_fetch. cbn [in_selected called set_state state].
    change (fun email_id : string => fetch_reply server email_id)
      with (fetch_reply server).
    destruct (fetch_messages lib self (fetch_reply server) (i :: ids));
      reflexivity.
  - simpl. rewrite E. reflexivity.
  - reflexivity.
Qed.

Lemma run_spec lib self server analyse_and_report :
  run lib self server analyse_and_report =
  if accepts_login server
  then Some (clean_up server (pending_of lib self server analyse_and_report)
                      (session_after_fetch server))
  else None.
Proof.
  unfold run, connect_to_server.
  destruct (accepts_login server); [|reflexivity].
  now rewrite run_body_spec.
Qed.

(** X6. When no listed message is relevant (nothing is listed, or every
    listed message fails to fetch, is the owner's or has no text), the
    analysis steps are not run at all: the run is the same whatever they
    would do, and no request reaches the analysis service. *)
Theorem run_skips_analysis_without_mail lib self server :
  relevant_mails lib self server = [] ->
  forall steps steps',
    run lib self server steps = run lib self server steps'.
Proof.
  intros H steps steps'. rewrite !run_spec. unfold pending_of. now rewrite H.
Qed.

Lemma run_skips_analysis_without_mail_witness :
  run no_libraries me own_mail_only failing_steps
  = run no_libraries me own_mail_only (fun _ => Ok tt).
Proof.
  apply (run_skips_analysis_without_mail no_libraries me own_mail_only).
  reflexivity.
Defined.

(** X7. How a run that opened the connection ends. If the inbox was
    selected and both [close] and [logout] go through, the run ends as its
    [try] block did: normally, or with the exception of the analysis steps.
    In every other case it ends with the error of the clean-up, which
    replaces the exception of the analysis steps if there was one. *)
Theorem run_ending lib self server steps ending mail :
  run lib self server steps = Some (ending, mail) ->
  ending = if released server
           then ending_of (pending_of lib self server steps)
           else inr ImapError.
Proof.
  rewrite run_spec. destruct (accepts_login server); [|discriminate].
  unfold clean_up, mail_close, mail_logout, released, session_after_fetch,
    in_selected, ending_of.
  cbn [state called set_state].
  destruct (select_ok server), (close_completes server),
    (logout_completes server); cbn [andb];
    try (intros [= <- _]; reflexivity).
  destruct (pending_of lib self server steps); intros [= <- _]; reflexivity.
Qed.

Lemma run_ending_witness :
  inr ImapError =
  if released connection_lost
  then ending_of (pending_of no_libraries me connection_lost failing_steps)
  else inr ImapError.
Proof.
  apply (run_ending no_libraries me connection_lost failing_steps
           (inr ImapError)
           {| state := AUTH;
              calls := [CallSelect; CallSearch; CallFetch "2"; CallClose] |}).
  reflexivity.
Defined.

(** X8. The calls a run makes on the connection, in order: SELECT; after a
    select that answered OK, SEARCH and one FETCH per listed identifier in
    listing order; then [close]; then [logout], which is made exactly when
    the inbox was selected and the CLOSE command went through. The connection
    is left in state LOGOUT when [logout] was called and in state AUTH
    otherwise. *)
Theorem run_call_sequence lib self server steps ending mail :
  run lib self server steps = Some (ending, mail) ->
  calls mail =
    (CallSelect ::
     (if select_ok server
      then CallSearch :: map CallFetch (listed server) else []) ++
     CallClose ::
     (if select_ok server && close_completes server then [CallLogout] else []))%list
  /\
  state mail =
    if select_ok server && close_completes server then LOGOUT else AUTH.
Proof.
  rewrite run_spec. destruct (accepts_login server); [|discriminate].
  unfold clean_up, mail_close, mail_logout, session_after_fetch, in_selected.
  cbn [state called set_state calls].
  destruct (select_ok server), (close_completes server); cbn [andb].
  - destruct (logout_completes server);
      [destruct (pending_of lib self server steps)|];
      intros [= _ <-]; split; try reflexivity;
      cbn [calls called set_state app]; now rewrite <- app_assoc.
  - intros [= _ <-]. cbn [calls state]. split; reflexivity.
  - intros [= _ <-]. cbn [calls state]. split; reflexivity.
  - intros [= _ <-]. cbn [calls state]. split; reflexivity.
Qed.

Lemma run_call_sequence_witness :
  [CallSelect; CallSearch; CallFetch "2"; CallClose] =
    (CallSelect ::
     (if select_ok connection_lost
      then CallSearch :: map CallFetch (listed connection_lost) else []) ++
     CallClose ::
     (if select_ok connection_lost && close_completes connection_lost
      then [CallLogout] else []))%list
  /\
  AUTH =
    if select_ok connection_lost && close_completes connection_lost
    then LOGOUT else AUTH.
Proof.
  apply (run_call_sequence no_libraries me connection_lost failing_steps
           (inr ImapError)
           {| state := AUTH;
              calls := [CallSelect; CallSearch; CallFetch "2"; CallClose] |}).
  reflexivity.
Defined.

(** ** The analysis of one message *)

(** X9. The request for a message is built from its subject, its sender and
    the first 2000 characters of its body and from nothing else: two messages
    that agree on these get the same request, and so the same analysis at the
    same position of the batch, whatever their recipients, dates and the rest
    of their bodies. *)
Theorem analysis_reads_subject_sender_body_head e1 e2 :
  subject e1 = subject e2 ->
  from e1 = from e2 ->
  take 2000 (body e1) = take 2000 (body e2) ->
  analysis_request e1 = analysis_request e2 /\
  forall lib self calls,
    categorize_and_summarize_email lib self calls e1
    = categorize_and_summarize_email lib self calls e2.
Proof.
  intros Hs Hf Hb.
  assert (R : analysis_request e1 = analysis_request e2).
  { unfold analysis_request, analysis_prompt, email_content.
    now rewrite Hs, Hf, Hb. }
  split; [exact R|].
  intros lib self calls. unfold categorize_and_summarize_email. now rewrite R.
Qed.

Lemma analysis_reads_subject_sender_body_head_witness :
  analysis_request long_mail_a = analysis_request long_mail_b /\
  forall lib self calls,
    categorize_and_summarize_email lib self calls long_mail_a
    = categorize_and_summarize_email lib self calls long_mail_b.
Proof.
  apply (analysis_reads_subject_sender_body_head long_mail_a long_mail_b);
    vm_compute; reflexivity.
Defined.

Lemma length_append (a b : string) :
  String.length (a ++ b) = String.length a + String.length b.
Proof. induction a as [|c a IH]; simpl; [reflexivity|now rewrite IH]. Qed.

Lemma substring_0_length (n : nat) (s : string) :
  String.length (String.substring 0 n s) = Nat.min n (String.length s).
Proof.
  revert s. induction n as [|n IH]; intros [|c s]; simpl; try reflexivity.
  now rewrite IH.
Qed.

Lemma substring_0_all (n : nat) (s : string) :
  String.length s <= n -> String.substring 0 n s = s.
Proof.
  revert s. induction n as [|n IH]; intros [|c s]; simpl; intros H;
    try reflexivity; [lia|].
  rewrite IH; [reflexivity|lia].
Qed.

Lemma prefix_substring (n : nat) (s : string) :
  String.prefix (String.substring 0 n s) s = true.
Proof.
  revert s. induction n as [|n IH]; intros [|c s]; simpl; try reflexivity.
  destruct (ascii_dec c c) as [_|N]; [apply IH|now elim N].
Qed.

Lemma substring_0_split (n : nat) (s : string) :
  exists rest, s = String.substring 0 n s ++ rest.
Proof.
  revert s. induction n as [|n IH]; intros [|c s]; simpl.
  - now exists "".
  - now exists (String c s).
  - now exists "".
  - destruct (IH s) as [rest H]. exists rest. now rewrite <- H.
Qed.

(** X10. When the request for a message raises, the analysis is the fallback
    of the outer handler: the single category PERSONAL, importance 5, and a
    summary made of a fixed prefix and the first 100 characters of the error
    text (all of it when it has no more). The summary never has more than
    123 characters. *)
Theorem failed_request_summary_is_bounded lib self calls email_data e :
  perplexity_client self calls (analysis_request email_data) = ApiRaised e ->
  let result := categorize_and_summarize_email lib self calls email_data in
  subscript result "categories" = Ok (PList [PStr "PERSONAL"]) /\
  subscript result "importance" = Ok (PInt 5) /\
  exists s rest,
    subscript result "summary" = Ok (PStr ("Error analyzing email: " ++ s)) /\
    e = s ++ rest /\
    String.length s = Nat.min 100 (String.length e) /\
    String.length ("Error analyzing email: " ++ s) <= 123 /\
    (String.length e <= 100 -> s = e).
Proof.
  intros H result. subst result.
  rewrite (failed_request_fallback lib self calls email_data e H).
  split; [reflexivity|]. split; [reflexivity|].
  destruct (substring_0_split 100 e) as [rest Hrest].
  exists (take 100 e), rest. split; [reflexivity|]. unfold take.
  split; [exact Hrest|]. split; [apply substring_0_length|]. split.
  - rewrite length_append, substring_0_length.
    change (String.length "Error analyzing email: ") with 23. lia.
  - apply substring_0_all.
Qed.

Lemma failed_request_summary_is_bounded_witness :
  let result := categorize_and_summarize_email no_libraries me 0 lunch_mail in
  subscript result "categories" = Ok (PList [PStr "PERSONAL"]) /\
  subscript result "importance" = Ok (PInt 5) /\
  exists s rest,
    subscript result "summary" = Ok (PStr ("Error analyzing email: " ++ s)) /\
    "Connection error." = s ++ rest /\
    String.length s = Nat.min 100 (String.length "Connection error.") /\
    String.length ("Error analyzing email: " ++ s) <= 123 /\
    (String.length "Connection error." <= 100 -> s = "Connection error.").
Proof.
  apply (failed_request_summary_is_bounded no_libraries me 0 lunch_mail
           "Connection error.").
  reflexivity.
Defined.

(** An error text of 150 characters is cut to its first 100. *)
Example long_error_is_cut :
  subscript
    (categorize_and_summarize_email
       no_libraries
       {| gmail_account_username := Some "me@gmail.com";
          perplexity_client :=
            fun _ _ => ApiRaised (String.concat "" (repeat "0123456789" 15)) |}
       0 lunch_mail)
    "summary"
  = Ok (PStr ("Error analyzing email: " ++
              String.concat "" (repeat "0123456789" 10))).
Proof. reflexivity. Qed.

(** ** The batch loop *)

(** X11. Failures that the handlers cover cost no message. When every
    subject of the batch is a [str] and no reply has a brace span that
    [json.loads] accepts (the request fails, the reply is empty or has no
    span, or the span does not decode), the loop returns the messages
    unchanged and in order, each with the single category PERSONAL and
    importance 5. *)
Theorem handled_failures_give_fallbacks lib self emails :
  (forall k e, nth_error emails k = Some e ->
               is_text (subject e) = true /\
               forall v, ~ is_parsed lib self k e v) ->
  exists out,
    process_all_emails lib self emails = Ok out /\
    map message out = emails /\
    Forall (fun p => categories p = PList [PStr "PERSONAL"] /\
                     importance p = PInt 5) out.
Proof.
  intros H.
  assert (Hf : forall k e, nth_error emails k = Some e ->
                 is_fallback (categorize_and_summarize_email lib self k e)).
  { intros k e He. destruct (H k e He) as [_ Hno].
    destruct (analysis_cases lib self k e) as [F | P]; [exact F|].
    now elim (Hno _ P). }
  destruct (handled_failures_keep_messages lib self emails) as (out & Hout & Hm).
  { intros k e He. split; [now apply (H k e He)|now apply Hf]. }
  exists out. split; [exact Hout|]. split; [exact Hm|].
  destruct (process_emails_from_nth _ _ _ _ _ Hout) as [Hlen Hnth].
  apply Forall_forall. intros p Hp.
  apply In_nth_error in Hp as [k Hk].
  destruct (nth_error emails k) as [e|] eqn:He.
  - destruct (Hnth k e p He Hk) as (_ & Hc & _ & Hi). simpl in Hc, Hi.
    destruct (fallback_fields _ (Hf k e He)) as [Fc Fi].
    rewrite Fc in Hc. rewrite Fi in Hi. split; congruence.
  - apply nth_error_None in He.
    assert (k < List.length out) by (apply nth_error_Some; congruence). lia.
Qed.

Lemma handled_failures_give_fallbacks_witness :
  exists out,
    process_all_emails no_libraries me [lunch_mail; long_mail_a] = Ok out /\
    map message out = [lunch_mail; long_mail_a] /\
    Forall (fun p => categories p = PList [PStr "PERSONAL"] /\
                     importance p = PInt 5) out.
Proof.
  apply (handled_failures_give_fallbacks no_libraries me).
  intros k e He. split.
  - destruct k as [|[|k]]; simpl in He.
    + now injection He as <-.
    + now injection He as <-.
    + now destruct k.
  - intros v (text & span & R & _). discriminate R.
Defined.

Lemma subscript_raises (v : pyval) (key : string) (e : exn) :
  subscript v key = Raise e -> e = KeyError key \/ e = TypeError.
Proof.
  destruct v; simpl; try (intros [= <-]; now right).
  destruct (dict_get entries key); [discriminate|]. intros [= <-]. now left.
Qed.

Lemma process_emails_from_raises lib self emails :
  forall i e, process_emails_from lib self i emails = Raise e ->
    e = TypeError \/
    exists key, e = KeyError key /\
                In key ["categories"; "summary"; "importance"].
Proof.
  induction emails as [|e0 emails IH]; intros i e H; [discriminate|].
  cbn [process_emails_from] in H.
  destruct (subject e0) as [text|text]; cbn [header_prefix bind] in H;
    [|injection H as <-; now left].
  destruct (subscript _ "categories") as [c|x] eqn:Hc.
  2:{ injection H as <-. apply subscript_raises in Hc as [-> | ->];
      [right; exists "categories"; simpl; auto | now left]. }
  destruct (subscript _ "summary") as [s|x] eqn:Hs.
  2:{ injection H as <-. apply subscript_raises in Hs as [-> | ->];
      [right; exists "summary"; simpl; auto | now left]. }
  destruct (subscript _ "importance") as [imp|x] eqn:Hi.
  2:{ injection H as <-. apply subscript_raises in Hi as [-> | ->];
      [right; exists "importance"; simpl; auto | now left]. }
  cbn [bind] in H.
  destruct (process_emails_from lib self (S i) emails) as [out|x] eqn:Hrest;
    [discriminate|].
  injection H as <-. now apply (IH (S i)).
Qed.

(** X12. The batch loop returns exactly when, for every message, the
    subject is a [str] (the progress line shows its first 50 characters) and
    the analysis result can be read under the three keys categories, summary
    and importance; the processed messages are then as many as the input
    messages. Otherwise it raises, and the exception is a [KeyError] for one
    of these three keys or a [TypeError]. *)
Theorem batch_loop_returns_iff_keys_present lib self emails :
  ((exists out, process_all_emails lib self emails = Ok out) <->
   (forall k e, nth_error emails k = Some e ->
                is_text (subject e) = true /\
                has_keys (categorize_and_summarize_email lib self k e))) /\
  (forall out, process_all_emails lib self emails = Ok out ->
               List.length out = List.length emails) /\
  (forall e, process_all_emails lib self emails = Raise e ->
             e = TypeError \/
             exists key, e = KeyError key /\
                         In key ["categories"; "summary"; "importance"]).
Proof.
  split; [split|split].
  - intros [out Hout] k e He. split.
    { exact (process_emails_from_subjects _ _ _ _ _ Hout k e He). }
    destruct (process_emails_from_nth _ _ _ _ _ Hout) as [Hlen Hnth].
    destruct (nth_error out k) as [p|] eqn:Hp.
    + destruct (Hnth k e p He Hp) as (_ & Hc & Hs & Hi). simpl in Hc, Hs, Hi.
      unfold has_keys. eauto 7.
    + apply nth_error_None in Hp.
      assert (k < List.length emails) by (apply nth_error_Some; congruence).
      lia.
  - intros H. apply (process_emails_from_returns lib self emails 0). exact H.
  - intros out Hout. now apply process_emails_from_nth in Hout.
  - intros e. apply process_emails_from_raises.
Qed.

(** A subject that is a [Header] object stops the batch at its message,
    before the analysis of that message is requested, whatever the service
    would answer. *)
Example header_subject_stops_batch :
  process_all_emails no_libraries (replying scenario_reply)
    [ lunch_mail; header_subject_mail; lunch_mail ]
  = Raise TypeError.
Proof. reflexivity. Qed.

(** ** Grouping and category summaries *)

Lemma add_to_groups_outcome email items :
  forall groups,
    returns (add_to_groups groups email items) = forallb hashable items /\
    forall e, add_to_groups groups email items = Raise e -> e = TypeError.
Proof.
  induction items as [|c items IH]; intros groups.
  - split; [reflexivity|discriminate].
  - cbn [add_to_groups forallb]. destruct (hashable c).
    + apply IH.
    + split; [reflexivity|]. now intros e [= <-].
Qed.

Lemma py_iter_raises (v : pyval) (e : exn) :
  py_iter v = Raise e -> e = TypeError.
Proof. destruct v; simpl; intros H; try discriminate; now injection H as <-. Qed.

Lemma group_emails_outcome processed_emails :
  forall groups,
    returns (group_emails groups processed_emails)
    = forallb groupable processed_emails /\
    forall e, group_emails groups processed_emails = Raise e -> e = TypeError.
Proof.
  induction processed_emails as [|email rest IH]; intros groups.
  - split; [reflexivity|discriminate].
  - cbn [group_emails forallb]. unfold groupable at 1.
    destruct (py_iter (categories email)) as [items|x] eqn:Hi; cbn [bind].
    + destruct (add_to_groups_outcome email items groups) as [Hr He].
      destruct (add_to_groups groups email items) as [groups'|x] eqn:Ha;
        cbn [bind returns] in *.
      * rewrite <- Hr. apply IH.
      * rewrite <- Hr. split; [reflexivity|]. intros e [= <-]. now apply He.
    + split; [reflexivity|]. intros e [= <-]. now apply py_iter_raises in Hi.
Qed.

(** X13. [generate_category_summaries] returns exactly when the categories
    of every processed message can be iterated (a list, a string or a
    dictionary) and hold only values that can be hashed; whatever the service
    answers makes no difference. Otherwise it raises [TypeError], for
    instance when a reply gave a number or [null] as categories, or a list
    inside the list. *)
Theorem category_summaries_return_iff_groupable self calls processed_emails :
  returns (generate_category_summaries self calls processed_emails)
  = forallb groupable processed_emails /\
  forall e, generate_category_summaries self calls processed_emails = Raise e ->
            e = TypeError.
Proof.
  unfold generate_category_summaries, category_groups.
  destruct (group_emails_outcome processed_emails []) as [Hr He].
  destruct (group_emails [] processed_emails) as [groups|x]; cbn [bind returns] in *.
  - split; [exact Hr|discriminate].
  - split; [exact Hr|]. intros e [= <-]. now apply He.
Qed.

(** A reply that gives a number as categories ends the aggregation. *)
Example number_as_categories_raises :
  generate_category_summaries me 0 [tagged "first" ["WORK"]; numbered_categories]
  = Raise TypeError.
Proof. reflexivity. Qed.

Lemma keys_group_append groups category email :
  keys_of (group_append groups category email) =
  if existsb (fun k => key_eqb k category) (keys_of groups)
  then keys_of groups
  else (keys_of groups ++ [category])%list.
Proof.
  unfold keys_of. induction groups as [|[k es] rest IH]; [reflexivity|].
  cbn [group_append map fst existsb].
  destruct (key_eqb k category); [reflexivity|].
  cbn [map fst orb]. rewrite IH.
  now destruct (existsb (fun k0 => key_eqb k0 category) (map fst rest)).
Qed.

Lemma distinct_keys_snoc keys k :
  distinct_keys keys = true ->
  existsb (fun k' => key_eqb k' k) keys = false ->
  distinct_keys (keys ++ [k]) = true.
Proof.
  induction keys as [|k0 keys IH]; intros Hd Hn; [reflexivity|].
  cbn [distinct_keys app existsb] in *.
  apply andb_true_iff in Hd as [Hf Hd].
  apply orb_false_iff in Hn as [Hk Hn].
  rewrite forallb_app, Hf, (IH Hd Hn). cbn [forallb]. now rewrite Hk.
Qed.

Lemma group_append_distinct groups category email :
  distinct_keys (keys_of groups) = true ->
  distinct_keys (keys_of (group_append groups category email)) = true.
Proof.
  intros H. rewrite keys_group_append.
  destruct (existsb (fun k => key_eqb k category) (keys_of groups)) eqn:E;
    [exact H|]. now apply distinct_keys_snoc.
Qed.

Lemma group_append_nonempty groups category email :
  Forall (fun kv => snd kv <> []) groups ->
  Forall (fun kv => snd kv <> []) (group_append groups category email).
Proof.
  induction 1 as [|[k es] rest Hk Hrest IH]; cbn [group_append].
  - repeat constructor. discriminate.
  - destruct (key_eqb k category).
    + constructor; [|exact Hrest]. cbn [snd]. now destruct es.
    + constructor; [exact Hk|exact IH].
Qed.

Lemma add_to_groups_well_formed email items :
  forall groups groups',
    well_formed_groups groups ->
    add_to_groups groups email items = Ok groups' ->
    well_formed_groups groups'.
Proof.
  induction items as [|c items IH]; intros groups groups' H.
  - now intros [= <-].
  - cbn [add_to_groups]. destruct (hashable c); [|discriminate].
    apply IH. destruct H as [Hd Hn].
    split; [now apply group_append_distinct|now apply group_append_nonempty].
Qed.

Lemma group_emails_well_formed processed_emails :
  forall groups groups',
    well_formed_groups groups ->
    group_emails groups processed_emails = Ok groups' ->
    well_formed_groups groups'.
Proof.
  induction processed_emails as [|email rest IH]; intros groups groups' H.
  - now intros [= <-].
  - cbn [group_emails].
    destruct (py_iter (categories email)) as [items|]; [|discriminate].
    cbn [bind].
    destruct (add_to_groups groups email items) as [groups1|] eqn:Ha;
      [|discriminate].
    cbn [bind]. apply IH. eapply add_to_groups_well_formed; eauto.
Qed.

Lemma category_groups_well_formed processed_emails groups :
  category_groups processed_emails = Ok groups -> well_formed_groups groups.
Proof.
  apply group_emails_well_formed. split; [reflexivity|constructor].
Qed.

Lemma summaries_set_fresh d category text :
  existsb (fun k => key_eqb k category) (map fst d) = false ->
  summaries_set d category text = (d ++ [(category, text)])%list.
Proof.
  induction d as [|[k v] d IH]; [reflexivity|].
  cbn [map fst existsb summaries_set]. intros H.
  apply orb_false_iff in H as [Hk H]. rewrite Hk. cbn [app]. now rewrite IH.
Qed.

Lemma distinct_keys_middle before k after :
  distinct_keys (before ++ k :: after) = true ->
  existsb (fun k' => key_eqb k' k) before = false.
Proof.
  induction before as [|k0 before IH]; [reflexivity|].
  cbn [app distinct_keys existsb]. intros H.
  apply andb_true_iff in H as [Hf Hd]. rewrite (IH Hd), orb_false_r.
  rewrite forallb_app in Hf. apply andb_true_iff in Hf as [_ Hf].
  cbn [forallb] in Hf. apply andb_true_iff in Hf as [Hf _].
  now apply negb_true_iff in Hf.
Qed.

Lemma summarize_groups_spec self groups :
  forall calls done,
    distinct_keys (map fst done ++ keys_of groups) = true ->
    Forall (fun kv => snd kv <> []) groups ->
    summarize_groups self calls groups done
    = (done ++ summaries_of self calls groups)%list.
Proof.
  induction groups as [|[c es] rest IH]; intros calls done Hd Hn.
  - cbn [summarize_groups summaries_of]. now rewrite app_nil_r.
  - inversion Hn as [|? ? Hes Hrest]; subst. cbn [snd] in Hes.
    cbn [summarize_groups summaries_of].
    destruct es as [|e es]; [now elim Hes|]. cbn [List.length Nat.ltb Nat.leb].
    unfold keys_of in Hd. cbn [map fst] in Hd.
    rewrite (summaries_set_fresh _ _ _ (distinct_keys_middle _ _ _ Hd)).
    rewrite IH.
    + now rewrite <- app_assoc.
    + rewrite map_app. cbn [map fst]. unfold keys_of.
      now rewrite <- app_assoc.
    + exact Hrest.
Qed.

Lemma summaries_of_nth self groups :
  forall calls i c es,
    nth_error groups i = Some (c, es) ->
    nth_error (summaries_of self calls groups) i
    = Some (c, summarize_category self (calls + i) c es).
Proof.
  induction groups as [|[c0 es0] rest IH]; intros calls [|i] c es H;
    try discriminate.
  - injection H as <- <-. cbn. now rewrite Nat.add_0_r.
  - cbn [summaries_of nth_error] in *.
    replace (calls + S i) with (S calls + i) by lia. now apply IH.
Qed.

Lemma summaries_of_keys self groups :
  forall calls, map fst (summaries_of self calls groups) = map fst groups.
Proof.
  induction groups as [|[c es] rest IH]; intros calls; [reflexivity|].
  cbn [summaries_of map fst]. now rewrite IH.
Qed.

(** X14. When the grouping returns, the category summaries have one entry
    per group, under the same keys and in the same order, and no group is
    empty. The entry at position [i] comes from one request of its own, the
    one made after [calls + i] earlier ones: it is the text of the reply
    ([None] when the reply has no content), or, when that request raises, the
    sentence "Summary for C category with N emails." with the key and the
    size of the group. A failed request therefore changes the summary of its
    own category only. *)
Theorem one_summary_per_group self calls processed_emails :
  forallb groupable processed_emails = true ->
  exists groups summaries,
    category_groups processed_emails = Ok groups /\
    generate_category_summaries self calls processed_emails = Ok summaries /\
    map fst summaries = map fst groups /\
    forall i c es,
      nth_error groups i = Some (c, es) ->
      es <> [] /\
      exists text,
        nth_error summaries i = Some (c, text) /\
        (forall reply,
            perplexity_client self (calls + i) (summary_request c es)
              = Reply (Some reply) ->
            text = PStr reply) /\
        (perplexity_client self (calls + i) (summary_request c es)
           = Reply None ->
         text = PNone) /\
        (forall e,
            perplexity_client self (calls + i) (summary_request c es)
              = ApiRaised e ->
            text = PStr ("Summary for " ++ py_str c ++ " category with " ++
                         str_of_nat (List.length es) ++ " emails.")).
Proof.
  intros H.
  destruct (group_emails_outcome processed_emails []) as [Hr _].
  rewrite H in Hr. unfold generate_category_summaries.
  fold (category_groups processed_emails) in Hr.
  destruct (category_groups processed_emails) as [groups|] eqn:Hg;
    [|discriminate].
  destruct (category_groups_well_formed _ _ Hg) as [Hd Hn].
  exists groups, (summaries_of self calls groups).
  split; [reflexivity|]. cbn [bind].
  rewrite (summarize_groups_spec self groups calls [] Hd Hn). cbn [app].
  split; [reflexivity|]. split; [apply summaries_of_keys|].
  intros i c es Hi. split.
  - rewrite Forall_forall in Hn. apply nth_error_In in Hi.
    exact (Hn _ Hi).
  - exists (summarize_category self (calls + i) c es).
    split; [now apply summaries_of_nth|].
    unfold summarize_category.
    destruct (perplexity_client self (calls + i) (summary_request c es))
      as [[reply|]|e]; repeat split; try discriminate; try reflexivity.
    now intros reply' [= <-].
Qed.

Lemma one_summary_per_group_witness :
  exists groups summaries,
    category_groups scenario_batch = Ok groups /\
    generate_category_summaries one_answer 0 scenario_batch = Ok summaries /\
    map fst summaries = map fst groups /\
    forall i c es,
      nth_error groups i = Some (c, es) ->
      es <> [] /\
      exists text,
        nth_error summaries i = Some (c, text) /\
        (forall reply,
            perplexity_client one_answer (0 + i) (summary_request c es)
              = Reply (Some reply) ->
            text = PStr reply) /\
        (perplexity_client one_answer (0 + i) (summary_request c es)
           = Reply None ->
         text = PNone) /\
        (forall e,
            perplexity_client one_answer (0 + i) (summary_request c es)
              = ApiRaised e ->
            text = PStr ("Summary for " ++ py_str c ++ " category with " ++
                         str_of_nat (List.length es) ++ " emails.")).
Proof.
  apply (one_summary_per_group one_answer 0 scenario_batch). reflexivity.
Defined.

(** The summaries of the scenario batch when the service answers once. *)
Example summaries_with_one_answer :
  generate_category_summaries one_answer 0 scenario_batch
  = Ok [ (PStr "WORK", PStr "Work was busy.");
         (PStr "FINANCE", PStr "Summary for FINANCE category with 2 emails.") ].
Proof. reflexivity. Qed.

Lemma existsb_key_str (seen : list string) (c : string) :
  existsb (fun k => key_eqb k (PStr c)) (map PStr seen)
  = existsb (fun s => String.eqb s c) seen.
Proof.
  induction seen as [|s seen IH]; [reflexivity|].
  cbn [map existsb key_eqb]. now rewrite IH.
Qed.

Lemma add_to_groups_keys email ls :
  forall groups seen,
    keys_of groups = map PStr seen ->
    exists groups',
      add_to_groups groups email (map PStr ls) = Ok groups' /\
      keys_of groups' = map PStr (first_seen seen ls).
Proof.
  induction ls as [|c ls IH]; intros groups seen Hk.
  - exists groups. split; [reflexivity|exact Hk].
  - cbn [map add_to_groups hashable first_seen]. apply IH.
    rewrite keys_group_append, Hk, existsb_key_str.
    destruct (existsb (fun s => String.eqb s c) seen); [reflexivity|].
    now rewrite map_app.
Qed.

Lemma first_seen_app (l1 l2 : list string) :
  forall seen, first_seen seen (l1 ++ l2) = first_seen (first_seen seen l1) l2.
Proof.
  induction l1 as [|c l1 IH]; intros seen; [reflexivity|].
  cbn [app first_seen]. apply IH.
Qed.

Lemma group_emails_keys processed_emails :
  Forall labelled processed_emails ->
  forall groups seen,
    keys_of groups = map PStr seen ->
    exists groups',
      group_emails groups processed_emails = Ok groups' /\
      keys_of groups'
      = map PStr (first_seen seen (flat_map labels processed_emails)).
Proof.
  induction 1 as [|email rest He Hrest IH]; intros groups seen Hk.
  - exists groups. split; [reflexivity|exact Hk].
  - cbn [group_emails flat_map]. rewrite He. cbn [py_iter bind].
    destruct (add_to_groups_keys email (labels email) groups seen Hk)
      as (groups1 & Ha & Hk1).
    rewrite Ha. cbn [bind].
    destruct (IH groups1 _ Hk1) as (groups' & Hg & Hk').
    exists groups'. split; [exact Hg|]. now rewrite first_seen_app.
Qed.

(** X15. Groups, and with them the category summaries and the category
    sections of the report, come in the order in which their labels are
    first met when the batch is read message by message and, within a
    message, label by label. *)
Theorem categories_in_order_of_first_appearance self calls processed_emails :
  Forall labelled processed_emails ->
  exists groups summaries,
    category_groups processed_emails = Ok groups /\
    generate_category_summaries self calls processed_emails = Ok summaries /\
    map fst groups
    = map PStr (first_seen [] (flat_map labels processed_emails)) /\
    map fst summaries = map fst groups.
Proof.
  intros Hl.
  destruct (group_emails_keys processed_emails Hl [] [] eq_refl)
    as (groups & Hg & Hk).
  fold (category_groups processed_emails) in Hg.
  destruct (category_groups_well_formed _ _ Hg) as [Hd Hn].
  exists groups, (summaries_of self calls groups).
  split; [exact Hg|]. unfold generate_category_summaries. rewrite Hg.
  cbn [bind]. rewrite (summarize_groups_spec self groups calls [] Hd Hn).
  cbn [app]. split; [reflexivity|]. split; [exact Hk|apply summaries_of_keys].
Qed.

Lemma categories_in_order_of_first_appearance_witness :
  exists groups summaries,
    category_groups repeated_label_batch = Ok groups /\
    generate_category_summaries me 0 repeated_label_batch = Ok summaries /\
    map fst groups
    = map PStr (first_seen [] (flat_map labels repeated_label_batch)) /\
    map fst summaries = map fst groups.
Proof.
  apply (categories_in_order_of_first_appearance me 0 repeated_label_batch).
  repeat constructor; apply labelled_tagged.
Defined.

Lemma existsb_eqb_In (seen : list string) (c : string) :
  existsb (fun s => String.eqb s c) seen = true <-> In c seen.
Proof.
  rewrite existsb_exists. split.
  - intros (s & Hs & E). apply String.eqb_eq in E. now subst.
  - intros H. exists c. split; [exact H|apply String.eqb_refl].
Qed.

(** [first_seen] lists each label once, keeps what was seen before in front,
    and adds nothing that is not in the list. *)
Lemma first_seen_spec (ls : list string) :
  forall seen,
    NoDup seen ->
    NoDup (first_seen seen ls) /\
    (forall c, In c (first_seen seen ls) <-> In c seen \/ In c ls) /\
    exists added, first_seen seen ls = (seen ++ added)%list.
Proof.
  induction ls as [|c ls IH]; intros seen Hnd.
  - cbn [first_seen]. split; [exact Hnd|]. split.
    + intros x. cbn [In]. tauto.
    + exists []. now rewrite app_nil_r.
  - cbn [first_seen].
    destruct (existsb (fun s => String.eqb s c) seen) eqn:E.
    + apply existsb_eqb_In in E.
      destruct (IH seen Hnd) as (H1 & H2 & H3).
      split; [exact H1|]. split; [|exact H3].
      intros x. rewrite H2. cbn [In]. split; [tauto|].
      intros [H | [<- | H]]; auto.
    + assert (Hc : ~ In c seen).
      { intros H. apply existsb_eqb_In in H. congruence. }
      assert (Hnd' : NoDup (seen ++ [c])).
      { apply NoDup_app; [exact Hnd|repeat constructor; intros []|].
        intros x Hx [<- | []]. exact (Hc Hx). }
      destruct (IH _ Hnd') as (H1 & H2 & (added & H3)).
      split; [exact H1|]. split.
      * intros x. rewrite H2, in_app_iff. cbn [In]. tauto.
      * exists (c :: added). rewrite H3. now rewrite <- app_assoc.
Qed.

(** ** Ranking *)

Lemma firstn_sorted n l :
  StronglySorted ranks_before l -> StronglySorted ranks_before (firstn n l).
Proof.
  intros H. rewrite <- (firstn_skipn n l) in H.
  now apply strongly_sorted_app_inv in H.
Qed.

Lemma In_firstn {A} (n : nat) (l : list A) (x : A) :
  In x (firstn n l) -> In x l.
Proof.
  intros H. rewrite <- (firstn_skipn n l). apply in_or_app. now left.
Qed.

Lemma In_slice_to {A} (l : list A) (n : Z) (x : A) :
  In x (slice_to l n) -> In x l.
Proof. unfold slice_to. destruct (n <? 0)%Z; apply In_firstn. Qed.

Lemma ranking_members processed_emails top_n out :
  get_top_important_emails processed_emails top_n = Some out ->
  forall e, In e out -> In e processed_emails.
Proof.
  unfold get_top_important_emails.
  destruct (forallb int_key processed_emails); [|discriminate].
  intros [= <-] e He. apply In_slice_to in He.
  now apply (Permutation_in _ (sorted_desc_perm processed_emails)).
Qed.

(** X16. Ranking a ranking changes nothing: with integer importances and a
    count that is not negative, the ranking of the list that the ranking
    returned, with the same count, is that list. *)
Theorem ranking_twice_changes_nothing processed_emails top_n out :
  (0 <= top_n)%Z ->
  get_top_important_emails processed_emails top_n = Some out ->
  get_top_important_emails out top_n = Some out.
Proof.
  intros Hn H. pose proof (ranking_members _ _ _ H) as Hmem.
  unfold get_top_important_emails in H |- *.
  destruct (forallb int_key processed_emails) eqn:Hall; [|discriminate].
  injection H as H. rewrite (slice_to_nonneg _ _ Hn) in H.
  assert (Hout : forallb int_key out = true).
  { apply forallb_forall. intros e He.
    rewrite forallb_forall in Hall. apply Hall, Hmem, He. }
  rewrite Hout, (slice_to_nonneg _ _ Hn). f_equal.
  assert (Hs : StronglySorted ranks_before out).
  { rewrite <- H. apply firstn_sorted, sorted_desc_sorted. }
  rewrite <- (sorted_desc_is_the_stable_sort out out Hs (fun k => eq_refl)).
  apply firstn_all2. rewrite <- H. apply firstn_le_length.
Qed.

Lemma ranking_twice_changes_nothing_witness :
  get_top_important_emails
    [ rated "b" 9; rated "e" 9; rated "d" 7 ] 3
  = Some [ rated "b" 9; rated "e" 9; rated "d" 7 ].
Proof.
  apply (ranking_twice_changes_nothing rated_batch 3); [lia|reflexivity].
Defined.

(** X17. The size of the ranking for any integer count. A count that is
    not negative gives that many messages or the whole batch if it is
    smaller; a negative count [-k] gives the ranking without its last [k]
    messages, so nothing when the batch has at most [k]. The ranking never
    has more messages than the batch, holds only messages of the batch, and
    with a count of at least the batch size it is a rearrangement of the
    whole batch. *)
Theorem ranking_size processed_emails top_n :
  Forall (fun e => int_key e = true) processed_emails ->
  exists out,
    get_top_important_emails processed_emails top_n = Some out /\
    Z.of_nat (List.length out) =
      (if (top_n <? 0)%Z
       then Z.max 0 (Z.of_nat (List.length processed_emails) + top_n)
       else Z.min top_n (Z.of_nat (List.length processed_emails))) /\
    (forall e, In e out -> In e processed_emails) /\
    ((Z.of_nat (List.length processed_emails) <= top_n)%Z ->
     Permutation out processed_emails).
Proof.
  intros Hint. unfold get_top_important_emails.
  assert (Hall : forallb int_key processed_emails = true).
  { apply forallb_forall. now apply Forall_forall. }
  rewrite Hall. eexists. split; [reflexivity|].
  pose proof (Permutation_length (sorted_desc_perm processed_emails)) as Hlen.
  split; [|split].
  - unfold slice_to. destruct (top_n <? 0)%Z eqn:E;
      rewrite length_firstn, Hlen.
    + apply Z.ltb_lt in E. lia.
    + apply Z.ltb_ge in E. lia.
  - intros e He. apply In_slice_to in He.
    now apply (Permutation_in _ (sorted_desc_perm processed_emails)).
  - intros Hbig. unfold slice_to.
    destruct (top_n <? 0)%Z eqn:E; [apply Z.ltb_lt in E; lia|].
    rewrite firstn_all2; [apply sorted_desc_perm|]. rewrite Hlen. lia.
Qed.

Lemma ranking_size_witness :
  exists out,
    get_top_important_emails rated_batch (-2) = Some out /\
    Z.of_nat (List.length out) =
      (if (-2 <? 0)%Z
       then Z.max 0 (Z.of_nat (List.length rated_batch) + -2)
       else Z.min (-2) (Z.of_nat (List.length rated_batch))) /\
    (forall e, In e out -> In e rated_batch) /\
    ((Z.of_nat (List.length rated_batch) <= -2)%Z ->
     Permutation out rated_batch).
Proof.
  apply (ranking_size rated_batch (-2)). repeat constructor.
Defined.

(** ** The report *)

Lemma brief_entry_outcome i email :
  returns (brief_entry i email)
  = is_text (subject (message email)) && sliceable (summary email) /\
  forall e, brief_entry i email = Raise e -> e = TypeError \/ e = SliceOfDict.
Proof.
  unfold brief_entry.
  destruct (subject (message email));
    cbn [header_prefix header_len bind is_text andb].
  - destruct (summary email); cbn;
      split; try reflexivity; try discriminate; intros e [= <-]; auto.
  - split; [reflexivity|]. intros e [= <-]. now left.
Qed.

Lemma all_str_outcome items :
  returns (all_str items) = forallb is_str items /\
  forall e, all_str items = Raise e -> e = TypeError.
Proof.
  induction items as [|v items [IH1 IH2]].
  - split; [reflexivity|discriminate].
  - destruct v; cbn [all_str forallb is_str andb returns];
      try (split; [reflexivity|now intros e [= <-]]).
    destruct (all_str items) as [l|x]; cbn [returns] in *.
    + split; [exact IH1|discriminate].
    + split; [exact IH1|]. intros e [= <-]. now apply IH2.
Qed.

Lemma detailed_entry_outcome i email :
  returns (detailed_entry i email) = joinable (categories email) /\
  forall e, detailed_entry i email = Raise e -> e = TypeError.
Proof.
  unfold detailed_entry, py_join, joinable.
  destruct (py_iter (categories email)) as [items|x] eqn:Hi; cbn [bind].
  - destruct (all_str_outcome items) as [H1 H2].
    destruct (all_str items) as [l|y]; cbn [bind returns] in *.
    + split; [exact H1|discriminate].
    + split; [exact H1|]. intros e [= <-]. now apply H2.
  - split; [reflexivity|]. intros e [= <-]. now apply py_iter_raises in Hi.
Qed.

Lemma brief_list_outcome top_emails :
  forall i,
    returns (brief_list i top_emails)
    = forallb (fun e => is_text (subject (message e)) && sliceable (summary e))
              top_emails /\
    forall e, brief_list i top_emails = Raise e ->
              e = TypeError \/ e = SliceOfDict.
Proof.
  induction top_emails as [|email rest IH]; intros i.
  - split; [reflexivity|discriminate].
  - cbn [brief_list forallb].
    destruct (brief_entry_outcome i email) as [H1 H2].
    destruct (brief_entry i email) as [entry|x]; cbn [bind returns] in *.
    + rewrite <- H1. destruct (IH (S i)) as [R1 R2].
      destruct (brief_list (S i) rest) as [more|y]; cbn [bind returns] in *.
      * split; [exact R1|discriminate].
      * split; [exact R1|]. intros e [= <-]. now apply R2.
    + rewrite <- H1. split; [reflexivity|]. intros e [= <-]. now apply H2.
Qed.

Lemma detailed_list_outcome top_emails :
  forall i,
    returns (detailed_list i top_emails)
    = forallb (fun e => joinable (categories e)) top_emails /\
    forall e, detailed_list i top_emails = Raise e -> e = TypeError.
Proof.
  induction top_emails as [|email rest IH]; intros i.
  - split; [reflexivity|discriminate].
  - cbn [detailed_list forallb].
    destruct (detailed_entry_outcome i email) as [H1 H2].
    destruct (detailed_entry i email) as [entry|x]; cbn [bind returns] in *.
    + rewrite <- H1. destruct (IH (S i)) as [R1 R2].
      destruct (detailed_list (S i) rest) as [more|y]; cbn [bind returns] in *.
      * split; [exact R1|discriminate].
      * split; [exact R1|]. intros e [= <-]. now apply R2.
    + rewrite <- H1. split; [reflexivity|]. intros e [= <-]. now apply H2.
Qed.

Lemma forallb_andb {A} (f g : A -> bool) (l : list A) :
  forallb (fun x => f x && g x) l = forallb f l && forallb g l.
Proof.
  induction l as [|x l IH]; [reflexivity|]. cbn [forallb]. rewrite IH.
  destruct (f x), (g x), (forallb f l), (forallb g l); reflexivity.
Qed.

Lemma renderable_split top_emails :
  forallb renderable top_emails
  = forallb (fun e => is_text (subject (message e)) && sliceable (summary e))
            top_emails
    && forallb (fun e => joinable (categories e)) top_emails.
Proof.
  unfold renderable.
  exact (forallb_andb
           (fun e => is_text (subject (message e)) && sliceable (summary e))
           (fun e => joinable (categories e)) top_emails).
Qed.

Lemma generate_report_returns
      now processed_emails category_summaries top_emails :
  forallb renderable top_emails = true ->
  exists report,
    generate_report now processed_emails category_summaries top_emails
    = Ok report.
Proof.
  rewrite renderable_split. intros H.
  apply andb_true_iff in H as [Hb Hd].
  destruct (brief_list_outcome top_emails 1) as [B1 _].
  destruct (detailed_list_outcome top_emails 1) as [D1 _].
  rewrite Hb in B1. rewrite Hd in D1. unfold generate_report.
  destruct (brief_list 1 top_emails) as [brief|]; [|discriminate].
  destruct (detailed_list 1 top_emails) as [detailed|]; [|discriminate].
  eexists. reflexivity.
Qed.

(** X18. [generate_report] returns exactly when every top message can be
    shown: its subject is a [str] and its summary is a string or a list (so
    that they can be cut and measured), and its categories can be joined (an
    iterable of strings). The processed messages, the category summaries and
    the clock never make it raise. Otherwise it raises: [TypeError], for
    instance for a summary that is JSON [null] or a number, or, for a summary
    that is a JSON object, the exception of slicing a dictionary (a
    [TypeError] up to Python 3.11, a [KeyError] from Python 3.12 on). *)
Theorem report_returns_iff_renderable
        now processed_emails category_summaries top_emails :
  returns (generate_report now processed_emails category_summaries top_emails)
  = forallb renderable top_emails /\
  forall e,
    generate_report now processed_emails category_summaries top_emails = Raise e ->
    e = TypeError \/ e = SliceOfDict.
Proof.
  rewrite renderable_split. unfold generate_report.
  destruct (brief_list_outcome top_emails 1) as [B1 B2].
  destruct (detailed_list_outcome top_emails 1) as [D1 D2].
  rewrite <- B1, <- D1.
  destruct (brief_list 1 top_emails) as [brief|x]; cbn [bind returns andb] in *.
  - destruct (detailed_list 1 top_emails) as [detailed|y];
      cbn [bind returns] in *.
    + split; [reflexivity|discriminate].
    + split; [reflexivity|]. intros e [= <-]. left. now apply D2.
  - split; [reflexivity|]. intros e [= <-]. now apply B2.
Qed.

(** A summary that is JSON [null] makes the report raise. *)
Example null_summary_raises :
  generate_report one_second_earlier [null_summary] [] [null_summary]
  = Raise TypeError.
Proof. reflexivity. Qed.

(** So does a summary that is a JSON object, with the exception of slicing
    a dictionary. *)
Example object_summary_raises :
  generate_report one_second_earlier [] []
    [ {| message := lunch_mail;
         categories := PList [PStr "WORK"];
         summary := PDict [("text", PStr "S")];
         importance := PInt 5 |} ]
  = Raise SliceOfDict.
Proof. reflexivity. Qed.

(** ** Delivery *)

(** X19. What [send_email_report] does with the report. It prints the two
    progress lines and nothing else when all five SMTP calls return; when one
    of them raises it prints the error and the whole report. So the report is
    never lost: the server has taken the message, or the report is on
    standard output. When only the final [quit] raises, both are the case and
    the delivery is still reported as an error. [quit] is called only after
    [send_message] has returned, so a session in which an earlier call failed
    is not closed. Every message handed to [send_message] has the report as
    body, the owner as sender and recipient, and the dated subject. *)
Theorem delivery_never_loses_report self smtp now report :
  let d := send_email_report self smtp now report in
  (all_done smtp = true ->
   printed d = ["Sending email report..."; "Email report sent successfully!"]) /\
  (all_done smtp = false -> exists e, printed d = failure_lines e report) /\
  (handed_over smtp = true \/ exists e, printed d = failure_lines e report) /\
  (In CallQuit (smtp_calls d) <-> handed_over smtp = true) /\
  (forall msg, In (CallSendMessage msg) (smtp_calls d) ->
     out_body msg = report /\
     out_from msg = gmail_account_username self /\
     out_to msg = gmail_account_username self /\
     out_subject msg = "Gmail Analysis Report - " ++ strftime_date now) /\
  (forall e, handed_over smtp = true -> smtp_quit smtp = Fails e ->
             printed d = failure_lines e report).
Proof.
  unfold send_email_report, all_done, handed_over, delivery_failed,
    failure_lines.
  destruct (smtp_open smtp) as [|e1], (smtp_starttls smtp) as [|e2],
    (smtp_login smtp) as [|e3], (smtp_send_message smtp) as [|e4],
    (smtp_quit smtp) as [|e5];
    cbn [printed smtp_calls app In];
    (split; [intros H; first [reflexivity|discriminate H]|]);
    (split; [intros H; first [discriminate H|eexists; reflexivity]|]);
    (split; [first [now left|right; eexists; reflexivity]|]);
    (split; [split; [intros H|intros H; try discriminate H; tauto];
             repeat (destruct H as [H|H]; try discriminate H);
             first [reflexivity|contradiction]|]);
    (split; [intros msg H;
             repeat (destruct H as [H|H]; try discriminate H);
             try contradiction; injection H as <-; repeat split|]);
    intros e H Hq; try discriminate H; try discriminate Hq;
    injection Hq as <-; reflexivity.
Qed.

Example sent_and_still_printed :
  send_email_report me quit_fails one_second_earlier "REPORT"
  = {| smtp_calls :=
         [ CallOpen; CallStarttls; CallLogin (Some "me@gmail.com");
           CallSendMessage
             {| out_from := Some "me@gmail.com"; out_to := Some "me@gmail.com";
                out_subject := "Gmail Analysis Report - 2026-01-02";
                out_body := "REPORT" |};
           CallQuit ];
       printed := failure_lines "Connection reset." "REPORT" |}.
Proof. reflexivity. Qed.

(** ** From the relevant messages to the delivery *)

Lemma well_typed_has_keys analysis :
  well_typed_analysis analysis -> has_keys analysis.
Proof.
  intros (ls & s & z & Hc & Hs & Hi). unfold has_keys. eauto 7.
Qed.

Lemma fallback_well_typed analysis :
  is_fallback analysis -> well_typed_analysis analysis.
Proof.
  intros [-> | [e ->]]; unfold well_typed_analysis.
  - exists ["PERSONAL"]. eexists. exists 5%Z. repeat split.
  - exists ["PERSONAL"]. eexists. exists 5%Z. repeat split.
Qed.

Lemma labelled_of_list (p : ProcessedEmail) (ls : list string) :
  categories p = PList (map PStr ls) -> labelled p.
Proof.
  intros H. unfold labelled, labels. rewrite H. now rewrite str_labels_map.
Qed.

Lemma hashable_strings (ls : list string) :
  forallb hashable (map PStr ls) = true.
Proof. induction ls as [|c ls IH]; [reflexivity|exact IH]. Qed.

Lemma is_str_strings (ls : list string) :
  forallb is_str (map PStr ls) = true.
Proof. induction ls as [|c ls IH]; [reflexivity|exact IH]. Qed.

(** X20. The steps after the fetch loop, taken together. When every
    subject of the batch is a [str] and the analysis result of every message
    has a list of strings as categories, a string as summary and an integer
    as importance (whatever the strings and the number are, and this
    includes both fallbacks), no step raises: the batch is processed,
    summarised by category, ranked and rendered, and the report is handed to
    the delivery. The report covers every message of the batch. *)
Theorem well_typed_analyses_reach_delivery
        lib self smtp now1 now2 email_list :
  (forall k e, nth_error email_list k = Some e ->
     is_text (subject e) = true /\
     well_typed_analysis (categorize_and_summarize_email lib self k e)) ->
  exists processed_emails category_summaries top_emails report,
    process_all_emails lib self email_list = Ok processed_emails /\
    map message processed_emails = email_list /\
    generate_category_summaries self (List.length email_list) processed_emails
      = Ok category_summaries /\
    get_top_important_emails processed_emails default_top_n = Some top_emails /\
    generate_report now1 processed_emails category_summaries top_emails
      = Ok report /\
    run_steps lib self smtp now1 now2 email_list
      = Some (Ok (send_email_report self smtp now2 report)).
Proof.
  intros H.
  destruct (process_emails_from_returns lib self email_list 0) as [out Hout].
  { intros k e He. destruct (H k e He) as [Ht Hw].
    split; [exact Ht|]. now apply well_typed_has_keys. }
  fold (process_all_emails lib self email_list) in Hout.
  destruct (process_emails_from_nth _ _ _ _ _ Hout) as [Hlen Hnth].
  assert (Hshape : forall p, In p out ->
            is_text (subject (message p)) = true /\
            (exists ls, categories p = PList (map PStr ls)) /\
            (exists s, summary p = PStr s) /\
            (exists z, importance p = PInt z)).
  { intros p Hp. apply In_nth_error in Hp as [k Hk].
    destruct (nth_error email_list k) as [e|] eqn:He.
    - destruct (Hnth k e p He Hk) as (Hm & Hc & Hs & Hi). simpl in Hc, Hs, Hi.
      destruct (H k e He) as (Ht & ls & s & z & Wc & Ws & Wi).
      rewrite Wc in Hc. rewrite Ws in Hs. rewrite Wi in Hi.
      injection Hc as Hc. injection Hs as Hs. injection Hi as Hi.
      rewrite Hm. repeat split; eauto.
    - apply nth_error_None in He.
      assert (k < List.length out) by (apply nth_error_Some; congruence).
      lia. }
  assert (Hmsg : map message out = email_list).
  { apply nth_error_ext. intros k. rewrite nth_error_map.
    destruct (nth_error out k) as [p|] eqn:Hp.
    - destruct (nth_error email_list k) as [e|] eqn:He.
      + simpl. f_equal. now apply (Hnth k e p He Hp).
      + apply nth_error_None in He.
        assert (k < List.length out) by (apply nth_error_Some; congruence).
        lia.
    - simpl. symmetry. apply nth_error_None.
      apply nth_error_None in Hp. lia. }
  assert (Hgroup : forallb groupable out = true).
  { apply forallb_forall. intros p Hp.
    destruct (Hshape p Hp) as (_ & (ls & Hc) & _). unfold groupable.
    rewrite Hc. cbn [py_iter]. apply hashable_strings. }
  assert (Hsum : exists summaries,
             generate_category_summaries self (List.length email_list) out
             = Ok summaries).
  { destruct (group_emails_outcome out []) as [Hr _]. rewrite Hgroup in Hr.
    unfold generate_category_summaries, category_groups.
    destruct (group_emails [] out) as [groups|]; [|discriminate].
    eexists. reflexivity. }
  destruct Hsum as [summaries Hsum].
  assert (Hint : forallb int_key out = true).
  { apply forallb_forall. intros p Hp.
    destruct (Hshape p Hp) as (_ & _ & _ & (z & Hz)).
    unfold int_key, rank_key. now rewrite Hz. }
  assert (Htop : get_top_important_emails out default_top_n
                 = Some (slice_to (sorted_desc out) default_top_n)).
  { unfold get_top_important_emails. now rewrite Hint. }
  assert (Hrender : forallb renderable
                      (slice_to (sorted_desc out) default_top_n) = true).
  { apply forallb_forall. intros p Hp.
    apply (ranking_members _ _ _ Htop) in Hp.
    destruct (Hshape p Hp) as (Ht & (ls & Hc) & (s & Hs) & _).
    unfold renderable, joinable. rewrite Ht, Hc, Hs.
    cbn [sliceable py_iter andb]. apply is_str_strings. }
  destruct (generate_report_returns now1 out summaries _ Hrender)
    as [report Hrep].
  exists out, summaries, (slice_to (sorted_desc out) default_top_n), report.
  split; [exact Hout|]. split; [exact Hmsg|]. split; [exact Hsum|].
  split; [exact Htop|]. split; [exact Hrep|].
  unfold run_steps. now rewrite Hout, Hsum, Htop, Hrep.
Qed.

Lemma well_typed_analyses_reach_delivery_witness :
  exists processed_emails category_summaries top_emails report,
    process_all_emails no_libraries me [lunch_mail; long_mail_a]
      = Ok processed_emails /\
    map message processed_emails = [lunch_mail; long_mail_a] /\
    generate_category_summaries me (List.length [lunch_mail; long_mail_a])
                                processed_emails
      = Ok category_summaries /\
    get_top_important_emails processed_emails default_top_n = Some top_emails /\
    generate_report one_second_earlier processed_emails category_summaries
                    top_emails
      = Ok report /\
    run_steps no_libraries me smtp_down one_second_earlier one_second_later
              [lunch_mail; long_mail_a]
      = Some (Ok (send_email_report me smtp_down one_second_later report)).
Proof.
  apply (well_typed_analyses_reach_delivery no_libraries me smtp_down).
  intros k e He. split.
  - destruct k as [|[|k]]; simpl in He.
    + now injection He as <-.
    + now injection He as <-.
    + now destruct k.
  - apply fallback_well_typed. right.
    exists "Connection error.". reflexivity.
Defined.

(** ** Single-part messages *)

(** X21. A message that is not multipart gives its decoded payload as body
    text whatever its content type says, only [text/html] being converted
    first; inside a multipart message the same part is skipped unless its
    type is [text/plain] or [text/html]. A payload that cannot be decoded
    gives no text in both places. *)
Theorem single_part_body_ignores_content_type lib headers content_type text :
  (String.eqb content_type "text/html" = false ->
   body_text lib (Single headers content_type (Some text)) = text) /\
  (String.eqb content_type "text/html" = true ->
   body_text lib (Single headers content_type (Some text))
   = extract_text_from_html lib text) /\
  (String.eqb content_type "text/html" = false ->
   String.eqb content_type "text/plain" = false ->
   forall outer outer_type,
     body_text lib (Multipart outer outer_type
                              [Single headers content_type (Some text)]) = "") /\
  body_text lib (Single headers content_type None) = "" /\
  (forall outer outer_type,
     body_text lib (Multipart outer outer_type
                              [Single headers content_type None]) = "").
Proof.
  repeat split.
  - intros H. unfold body_text. cbn. now rewrite H.
  - intros H. unfold body_text. cbn. now rewrite H.
  - intros Hh Hp outer outer_type. unfold body_text.
    cbn [is_multipart walk flat_map app]. rewrite !accumulate_concat.
    cbn [map]. rewrite !concat_empty_cons.
    rewrite (part_text_silent lib (Multipart outer outer_type _) eq_refl).
    rewrite (part_text_silent lib (Single headers content_type (Some text))).
    + reflexivity.
    + unfold is_text_part. cbn [decoded_payload get_content_type].
      now rewrite Hp, Hh.
  - intros outer outer_type. unfold body_text.
    cbn [is_multipart walk flat_map app]. rewrite !accumulate_concat.
    cbn [map]. rewrite !concat_empty_cons.
    rewrite (part_text_silent lib (Multipart outer outer_type _) eq_refl).
    now rewrite (part_text_silent lib (Single headers content_type None) eq_refl).
Qed.

(** ** Finding the object in a reply *)

Lemma from_first_skips (n : nat) (pre rest : string) :
  has_char n pre = false ->
  from_first n (pre ++ String (ascii_of_nat n) rest)
  = Some (String (ascii_of_nat n) rest) \/ 256 <= n.
Proof.
  destruct (Nat.lt_ge_cases n 256) as [Hn|Hn]; [|now right].
  intros H. left. induction pre as [|c pre IH].
  - cbn [append from_first]. unfold code.
    now rewrite (nat_ascii_embedding n Hn), Nat.eqb_refl.
  - cbn [append from_first has_char] in *.
    apply orb_false_iff in H as [Hc H]. rewrite Hc. now apply IH.
Qed.

Lemma upto_last_stops (n : nat) (s post : string) :
  n < 256 ->
  has_char n post = false ->
  upto_last n (s ++ String (ascii_of_nat n) post)
  = Some (s ++ String (ascii_of_nat n) "").
Proof.
  intros Hn H.
  assert (Hpost : upto_last n post = None).
  { induction post as [|c post IH]; [reflexivity|].
    cbn [has_char upto_last] in *. apply orb_false_iff in H as [Hc H].
    now rewrite (IH H), Hc. }
  induction s as [|c s IH].
  - cbn [append upto_last]. rewrite Hpost. unfold code.
    now rewrite (nat_ascii_embedding n Hn), Nat.eqb_refl.
  - cbn [append upto_last]. now rewrite IH.
Qed.

(** X22. Where the object of a reply is taken from. If no opening brace
    stands before an opening brace of the reply and no closing brace stands
    after a later closing brace, the span handed to [json.loads] is the text
    from the one to the other, whatever lies between and around them. So
    prose around the object does no harm as long as it has no brace on the
    wrong side; a closing brace in the prose after the object is taken into
    the span. The analysis is then what [json.loads] makes of that span. *)
Theorem object_is_taken_between_outer_braces lib pre mid post :
  has_char 123 pre = false ->
  has_char 125 post = false ->
  brace_span (pre ++ "{" ++ mid ++ "}" ++ post) = Some ("{" ++ mid ++ "}") /\
  parse_reply lib (pre ++ "{" ++ mid ++ "}" ++ post)
  = match json_loads lib ("{" ++ mid ++ "}") with
    | Loaded result => result
    | JSONDecodeError => fallback_analysis
    | LoadsRaised e => error_analysis e
    end.
Proof.
  intros Hpre Hpost.
  assert (Hspan : brace_span (pre ++ "{" ++ mid ++ "}" ++ post)
                  = Some ("{" ++ mid ++ "}")).
  { unfold brace_span.
    destruct (from_first_skips 123 pre (mid ++ "}" ++ post) Hpre) as [F|F];
      [|lia].
    change (String (ascii_of_nat 123) (mid ++ "}" ++ post))
      with ("{" ++ mid ++ "}" ++ post) in F.
    rewrite F.
    change ("{" ++ mid ++ "}" ++ post)
      with (String "{" mid ++ String (ascii_of_nat 125) post).
    rewrite (upto_last_stops 125 (String "{" mid) post); [reflexivity|lia|].
    exact Hpost. }
  split; [exact Hspan|]. unfold parse_reply. now rewrite Hspan.
Qed.

Lemma object_is_taken_between_outer_braces_witness :
  brace_span ("Result: " ++ "{" ++ object_and_smiley ++ "}" ++ " bye")
  = Some ("{" ++ object_and_smiley ++ "}") /\
  parse_reply no_libraries
              ("Result: " ++ "{" ++ object_and_smiley ++ "}" ++ " bye")
  = match json_loads no_libraries ("{" ++ object_and_smiley ++ "}") with
    | Loaded result => result
    | JSONDecodeError => fallback_analysis
    | LoadsRaised e => error_analysis e
    end.
Proof.
  apply (object_is_taken_between_outer_braces no_libraries "Result: "
           object_and_smiley " bye"); reflexivity.
Defined.

(** The stray closing brace costs the object: the span does not decode. *)
Example smiley_after_object_gives_fallback :
  parse_reply no_libraries
              ("Result: " ++ "{" ++ object_and_smiley ++ "}" ++ " bye")
  = fallback_analysis.
Proof. reflexivity. Qed.
